(** * xtemplate: the template function library (funcs.go)

    A shallow embedding of the functions of [funcLibrary]: [funcTry],
    [funcIdx], [funcSanitizeHtml], [funcMarkdown], [funcHTTPError],
    [funcHumanize] and the trust markers, together with the fragment of
    Go's dynamic typing ([any], [reflect]) that [funcTry] and [funcIdx]
    rely on, and a model of the reload of template sets under running
    requests. *)

From Stdlib Require Import ZArith Lia Ascii.
From stdpp Require Import base option list strings gmap pretty.

#[local] Set Warnings "-register-all".
Local Open Scope string_scope.
Local Open Scope Z_scope.

(** ** Go types, as far as [reflect] inspects them *)

Inductive Kind :=
  | KInvalid | KBool | KInt | KUint8 | KString | KArray | KSlice | KMap
  | KPointer | KStruct | KInterface | KFunc.

(** A method set is kept as the list of the methods' signatures.  A defined
    type carries the methods declared with a value receiver and those
    declared with a pointer receiver. *)
Inductive GoType :=
  | TBool
  | TInt
  | TUint8
  | TString
  | TArray (len : nat) (elem : GoType)
  | TSlice (elem : GoType)
  | TMap (key elem : GoType)
  | TPtr (elem : GoType)
  | TStruct (names : list string) (fields : list GoType)
  | TInterface (methods : list string)
  | TFunc (ins outs : list GoType) (variadic : bool)
  | TNamed (name : string) (under : GoType) (vmethods pmethods : list string).

Definition list_eqb {A} (eqb : A -> A -> bool) : list A -> list A -> bool :=
  fix go (xs ys : list A) : bool :=
    match xs, ys with
    | [], [] => true
    | x :: xs', y :: ys' => eqb x y && go xs' ys'
    | _, _ => false
    end.

(** Type identity. *)
Fixpoint GoType_eqb (a b : GoType) {struct a} : bool :=
  match a, b with
  | TBool, TBool | TInt, TInt | TUint8, TUint8 | TString, TString => true
  | TArray n x, TArray m y => Nat.eqb n m && GoType_eqb x y
  | TSlice x, TSlice y => GoType_eqb x y
  | TMap k x, TMap l y => GoType_eqb k l && GoType_eqb x y
  | TPtr x, TPtr y => GoType_eqb x y
  | TStruct ns xs, TStruct ms ys =>
      list_eqb String.eqb ns ms && list_eqb GoType_eqb xs ys
  | TInterface ms, TInterface ns => list_eqb String.eqb ms ns
  | TFunc i o v, TFunc j p w =>
      list_eqb GoType_eqb i j && list_eqb GoType_eqb o p && Bool.eqb v w
  | TNamed n u vm pm, TNamed m w vn pn =>
      String.eqb n m && GoType_eqb u w
      && list_eqb String.eqb vm vn && list_eqb String.eqb pm pn
  | _, _ => false
  end.

Fixpoint underlying (t : GoType) : GoType :=
  match t with
  | TNamed _ u _ _ => underlying u
  | _ => t
  end.

(** [HasName]: defined types and the predeclared basic types have a name. *)
Definition is_named (t : GoType) : bool :=
  match t with
  | TNamed _ _ _ _ | TBool | TInt | TUint8 | TString => true
  | _ => false
  end.

Definition kind_of (t : GoType) : Kind :=
  match underlying t with
  | TBool => KBool
  | TInt => KInt
  | TUint8 => KUint8
  | TString => KString
  | TArray _ _ => KArray
  | TSlice _ => KSlice
  | TMap _ _ => KMap
  | TPtr _ => KPointer
  | TStruct _ _ => KStruct
  | TInterface _ => KInterface
  | TFunc _ _ _ => KFunc
  | TNamed _ _ _ _ => KInvalid
  end.

Definition Kind_eqb (a b : Kind) : bool :=
  match a, b with
  | KInvalid, KInvalid | KBool, KBool | KInt, KInt | KUint8, KUint8
  | KString, KString | KArray, KArray | KSlice, KSlice | KMap, KMap
  | KPointer, KPointer | KStruct, KStruct | KInterface, KInterface
  | KFunc, KFunc => true
  | _, _ => false
  end.

(** [Kind.String]. *)
Definition Kind_String (k : Kind) : string :=
  match k with
  | KInvalid => "invalid" | KBool => "bool" | KInt => "int"
  | KUint8 => "uint8" | KString => "string" | KArray => "array"
  | KSlice => "slice" | KMap => "map" | KPointer => "ptr"
  | KStruct => "struct" | KInterface => "interface" | KFunc => "func"
  end.

Definition method_set (t : GoType) : list string :=
  match t with
  | TInterface ms => ms
  | TNamed _ u vm _ =>
      match underlying u with TInterface ms => ms | _ => vm end
  | TPtr (TNamed _ _ vm pm) => (vm ++ pm)%list
  | _ => []
  end.

Definition has_method (ms : list string) (m : string) : bool :=
  existsb (String.eqb m) ms.

(** [reflect]: type [v] implements the interface type [t]. *)
Definition implements (t v : GoType) : bool :=
  match underlying t with
  | TInterface ms => forallb (has_method (method_set v)) ms
  | _ => false
  end.

Definition directlyAssignable (t v : GoType) : bool :=
  GoType_eqb t v
  || (negb (is_named t && is_named v)
      && GoType_eqb (underlying t) (underlying v)).

(** [v.AssignableTo(t)]. *)
Definition AssignableTo (v t : GoType) : bool :=
  directlyAssignable t v || implements t v.

(** The predeclared interface types [error] and [any]. *)
Definition errorType : GoType :=
  TNamed "error" (TInterface ["Error() string"]) [] [].
Definition anyType : GoType := TInterface [].

(** The accessors of [reflect.Type] that panic on a type of the wrong kind
    or on an index out of range return [None] there. *)
Definition NumOut (t : GoType) : option nat :=
  match underlying t with TFunc _ outs _ => Some (length outs) | _ => None end.
Definition NumIn (t : GoType) : option nat :=
  match underlying t with TFunc ins _ _ => Some (length ins) | _ => None end.
Definition Out (t : GoType) (i : nat) : option GoType :=
  match underlying t with TFunc _ outs _ => outs !! i | _ => None end.
Definition In (t : GoType) (i : nat) : option GoType :=
  match underlying t with TFunc ins _ _ => ins !! i | _ => None end.
Definition IsVariadic (t : GoType) : option bool :=
  match underlying t with TFunc _ _ v => Some v | _ => None end.
Definition Elem (t : GoType) : option GoType :=
  match underlying t with
  | TArray _ e | TSlice e | TMap _ e | TPtr e => Some e
  | _ => None
  end.

(** ** Go values

    A [GoValue] is a type together with the data stored at that type, which is
    what a [reflect.Value] exposes.  A function value refers to its code by
    an identifier.  An interface value ([any], [error]) is either nil or
    holds a value of a concrete type. *)
Inductive GoValue :=
  | MkValue (t : GoType) (d : Data)
with Data :=
  | DNil
  | DBool (b : bool)
  | DInt (z : Z)
  | DString (s : string)
  | DList (xs : list GoValue)
  | DPtr (target : GoValue)
  | DMap (entries : list (GoValue * GoValue))
  | DFunc (code : nat)
  | DIface (dyn : GoValue).

Definition typ (v : GoValue) : GoType := match v with MkValue t _ => t end.
Definition data (v : GoValue) : Data := match v with MkValue _ d => d end.

Abbreviation any := (option GoValue).
Abbreviation error := (option GoValue).

Definition ValueKind (v : GoValue) : Kind := kind_of (typ v).

(** [v.Interface()]: the value as an [any]; a value of interface kind yields
    the value it holds, or nil. *)
Definition Interface (v : GoValue) : any :=
  match ValueKind v with
  | KInterface => match data v with DIface d => Some d | _ => None end
  | _ => Some v
  end.

(** [reflect.New(t).Elem()]: the zero value of [t]. *)
Fixpoint zero_data (t : GoType) : Data :=
  match t with
  | TBool => DBool false
  | TInt | TUint8 => DInt 0
  | TString => DString ""
  | TArray n e => DList (replicate n (MkValue e (zero_data e)))
  | TStruct _ fs => DList (map (fun f => MkValue f (zero_data f)) fs)
  | TNamed _ u _ _ => zero_data u
  | TSlice _ | TMap _ _ | TPtr _ | TInterface _ | TFunc _ _ _ => DNil
  end.
Definition Zero (t : GoType) : GoValue := MkValue t (zero_data t).

(** ** Errors *)

Definition errorString : GoType :=
  TNamed "errors.errorString" (TStruct ["s"] [TString]) [] ["Error() string"].

(** [errors.New], which [fmt.Errorf] returns for a format without [%w]. *)
Definition errors_New (msg : string) : error :=
  Some (MkValue (TPtr errorString)
          (DPtr (MkValue errorString (DList [MkValue TString (DString msg)])))).
Definition Errorf (msg : string) : error := errors_New msg.

(** ** Calls and panics

    A computation either returns or panics, and records the Go functions
    it has invoked through [reflect], in order. *)
Inductive Outcome (A : Type) :=
  | Returns (a : A)
  | Panics (msg : string).
Arguments Returns {A} a.
Arguments Panics {A} msg.

Record Invocation := { inv_code : nat; inv_args : list GoValue }.

Definition M (A : Type) : Type := list Invocation * Outcome A.

#[export] Instance M_ret : MRet M := fun A a => ([], Returns a).
#[export] Instance M_bind : MBind M := fun A B k m =>
  match m with
  | (tr, Returns a) => let '(tr', r) := k a in ((tr ++ tr')%list, r)
  | (tr, Panics msg) => (tr, Panics msg)
  end.

Definition panic {A} (msg : string) : M A := ([], Panics msg).

(** A [reflect] accessor that panics where the model has [None]. *)
Definition orPanic {A} (msg : string) (o : option A) : M A :=
  match o with Some a => mret a | None => panic msg end.

(** The message of the run-time panic of [xs[i]] out of range, and of
    [reflect]'s panic for a method called on a value of the wrong kind. *)
Definition indexOutOfRange (i len : nat) : string :=
  "runtime error: index out of range [" +:+ pretty i +:+ "] with length "
  +:+ pretty len.

Definition wrongKind (method : string) (k : Kind) : string :=
  "reflect: call of reflect.Value." +:+ method +:+ " on "
  +:+ match k with KInvalid => "zero" | _ => Kind_String k end +:+ " Value".

Definition trace {A} (m : M A) : list Invocation := fst m.
Definition outcome {A} (m : M A) : Outcome A := snd m.

(** The result type of [funcTry]. *)
Record result := { Value : any; Error : error }.

(** [(r *result) OK()]. *)
Definition OK (r : result) : bool :=
  match Error r with None => true | Some _ => false end.

(** ** [reflect.Value.Call] and [reflect.Value.CallSlice] *)

Inductive CallOp := OpCall | OpCallSlice.

Definition opName (op : CallOp) : string :=
  match op with OpCall => "Call" | OpCallSlice => "CallSlice" end.

(** [assignTo]: the argument as a value of the parameter's type.  A concrete
    value passed for an interface parameter is boxed. *)
Definition assignTo (v : GoValue) (dst : GoType) : GoValue :=
  if directlyAssignable dst (typ v) then MkValue dst (data v)
  else match ValueKind v with
       | KInterface => MkValue dst (data v)
       | _ => MkValue dst (DIface v)
       end.

Definition assignable_args (args : list GoValue) (ts : list GoType) : bool :=
  forallb (fun '(x, t) => AssignableTo (typ x) t) (zip args ts).

Section Reflect.

(** The code of the program's function values: what the function with a
    given identifier does on given arguments. *)
Variable code : nat -> list GoValue -> Outcome (list GoValue).

Definition invoke (c : nat) (args : list GoValue) : M (list GoValue) :=
  ([{| inv_code := c; inv_args := args |}], code c args).

(** [Value.call]: the checks on the argument list come first; the function
    runs only when all of them pass.  The panic messages of the type
    checks leave out the type names. *)
Definition call (op : CallOp) (v : GoValue) (ins : list GoValue)
  : M (list GoValue) :=
  match underlying (typ v) with
  | TFunc tin tout variadic =>
      match data v with
      | DFunc c =>
          let n := length tin in
          match op with
          | OpCallSlice =>
              if negb variadic then
                panic "reflect: CallSlice of non-variadic function"
              else if (length ins <? n)%nat then
                panic "reflect: CallSlice with too few input arguments"
              else if (n <? length ins)%nat then
                panic "reflect: CallSlice with too many input arguments"
              else if negb (assignable_args ins tin) then
                panic "reflect: CallSlice using value as wrong type"
              else invoke c (zip_with assignTo ins tin)
          | OpCall =>
              let n := if variadic then (n - 1)%nat else n in
              if (length ins <? n)%nat then
                panic "reflect: Call with too few input arguments"
              else if negb variadic && (n <? length ins)%nat then
                panic "reflect: Call with too many input arguments"
              else if negb (assignable_args (take n ins) (take n tin)) then
                panic "reflect: Call using value as wrong type"
              else if variadic then
                match tin !! n with
                | Some st =>
                    match Elem st with
                    | Some et =>
                        let rest := drop n ins in
                        if forallb (fun x => AssignableTo (typ x) et) rest
                        then
                          invoke c
                            (zip_with assignTo (take n ins) (take n tin)
                             ++ [MkValue st
                                   (DList
                                      (map (fun x => assignTo x et) rest))])%list
                        else panic "reflect: cannot use value as variadic type"
                    | None => panic "reflect: Elem of invalid type"
                    end
                | None => panic (indexOutOfRange n (length tin))
                end
              else invoke c (zip_with assignTo ins tin)
          end
      | _ => panic "reflect.Value.Call: call of nil function"
      end
  | _ => panic (wrongKind (opName op) (ValueKind v))
  end.

Definition Call := call OpCall.
Definition CallSlice := call OpCallSlice.

(** ** [funcTry]

    The loop over [args]: a nil argument becomes the zero value of the
    parameter at the same position, any other argument is passed as it
    is. *)
Fixpoint reflectArgsFrom (ft : GoType) (i : nat) (args : list any)
  : M (list GoValue) :=
  match args with
  | [] => mret []
  | a :: rest =>
      arg ← match a with
            | Some v => mret v
            | None =>
                t ← orPanic (indexOutOfRange i (default 0%nat (NumIn ft)))
                       (In ft i);
                mret (Zero t)
            end;
      tl ← reflectArgsFrom ft (S i) rest;
      mret (arg :: tl)
  end.

Definition index {A} (xs : list A) (i : nat) : M A :=
  orPanic (indexOutOfRange i (length xs)) (xs !! i).

Definition funcTry (fn : any) (args : list any) : M (option result * error) :=
  match fn with
  | None => mret (None, Errorf "nil func")
  | Some fnv =>
      if negb (Kind_eqb (ValueKind fnv) KFunc) then
        mret (None, Errorf "not a function")
      else
        n ← orPanic "reflect: NumOut of non-func type" (NumOut (typ fnv));
        if negb (n =? 1)%nat && negb (n =? 2)%nat then
          mret (None, Errorf ("cannot call func that has " +:+ pretty n
                              +:+ " outputs"))
        else
          last ← orPanic (indexOutOfRange (n - 1) n) (Out (typ fnv) (n - 1));
          if negb (AssignableTo last errorType) then
            mret (None,
                  Errorf "cannot call func whose last arg is not error")
          else
            reflectArgs ← reflectArgsFrom (typ fnv) 0 args;
            variadic ← orPanic "reflect: IsVariadic of non-func type"
                         (IsVariadic (typ fnv));
            out ← (if variadic : bool then CallSlice fnv reflectArgs
                   else Call fnv reflectArgs);
            last_out ← index out (n - 1);
            let ierr := Interface last_out in
            err ← match ierr with
                  | Some e =>
                      if implements errorType (typ e) then mret (Some e)
                      else panic "interface conversion: not an error"
                  | None => mret None
                  end;
            value ← (if (1 <? n)%nat then
                       first_out ← index out 0; mret (Interface first_out)
                     else mret None);
            mret (Some {| Value := value; Error := err |}, None)
  end.

End Reflect.

(** The part of [funcTry] that builds the argument list and calls the
    function: what remains of it once the signature is accepted. *)
Definition invocation (code : nat -> list GoValue -> Outcome (list GoValue))
    (fnv : GoValue) (args : list any) : M (list GoValue) :=
  reflectArgs ← reflectArgsFrom (typ fnv) 0 args;
  variadic ← orPanic "reflect: IsVariadic of non-func type"
               (IsVariadic (typ fnv));
  if variadic : bool then CallSlice code fnv reflectArgs
  else Call code fnv reflectArgs.

(** A signature [funcTry] accepts: a function with [n] outputs, [n] being 1
    or 2, the last of which, of type [last], is assignable to [error]. *)
Definition accepted (fnv : GoValue) (n : nat) (last : GoType) : Prop :=
  ValueKind fnv = KFunc /\ NumOut (typ fnv) = Some n /\ (n = 1 \/ n = 2)%nat /\
  Out (typ fnv) (n - 1) = Some last /\ AssignableTo last errorType = true.

(** The end of [funcTry]: the outputs of the call made into a [result]. *)
Definition wrapOutputs (n : nat) (out : list GoValue)
  : M (option result * error) :=
  last_out ← index out (n - 1);
  let ierr := Interface last_out in
  err ← match ierr with
        | Some e =>
            if implements errorType (typ e) then mret (Some e)
            else panic "interface conversion: not an error"
        | None => mret None
        end;
  value ← (if (1 <? n)%nat then
             first_out ← index out 0; mret (Interface first_out)
           else mret None);
  mret (Some {| Value := value; Error := err |}, None).

(** The argument list [funcTry] builds from [args] for parameters of types
    [ins]: as long as [args], with zero values in place of the nils. *)
Definition zeroFilled (ins : list GoType) (args : list any) : list GoValue :=
  zip_with (fun a t => from_option id (Zero t) a) args ins.

(** The values [funcTry] rejects, each with the message of its error. *)
Inductive Rejected : any -> string -> Prop :=
  | rej_nil : Rejected None "nil func"
  | rej_not_func v :
      ValueKind v <> KFunc -> Rejected (Some v) "not a function"
  | rej_outputs v n :
      ValueKind v = KFunc -> NumOut (typ v) = Some n ->
      (n = 0 \/ 3 <= n)%nat ->
      Rejected (Some v)
        ("cannot call func that has " +:+ pretty n +:+ " outputs")
  | rej_last v n last :
      ValueKind v = KFunc -> NumOut (typ v) = Some n ->
      (n = 1 \/ n = 2)%nat ->
      Out (typ v) (n - 1) = Some last ->
      AssignableTo last errorType = false ->
      Rejected (Some v) "cannot call func whose last arg is not error".

(** A value conforms to a type when it has that type and, if it is an
    interface value holding something, what it holds implements the
    interface. *)
Definition conforms (v : GoValue) (t : GoType) : Prop :=
  typ v = t /\
  match data v with
  | DIface d => kind_of t = KInterface -> implements t (typ d) = true
  | _ => True
  end.

(** *** Sample functions *)

Definition intErrFunc : GoType := TFunc [TInt] [TInt; errorType] false.
Definition errFunc : GoType := TFunc [TString] [errorType] false.

(** A defined error type [MyErr] and a function that returns [*MyErr]. *)
Definition MyErr : GoType :=
  TNamed "MyErr" (TStruct [] []) ["Error() string"] [].
Definition ptrErrFunc : GoType := TFunc [] [TInt; TPtr MyErr] false.

Definition box_error (e : error) : GoValue :=
  MkValue errorType (match e with Some d => DIface d | None => DNil end).

(** Function 0: [func(x int) (int, error)], which fails on a negative [x]
    and returns [x + 1] otherwise.  Function 1: [func(s string) error],
    which fails on the empty string.  Function 2:
    [func() (int, *MyErr) { return 5, nil }]. *)
Definition sampleCode (c : nat) (args : list GoValue)
  : Outcome (list GoValue) :=
  match c, args with
  | 0%nat, [MkValue _ (DInt x)] =>
      if x <? 0 then
        Returns [MkValue TInt (DInt 0); box_error (errors_New "negative")]
      else Returns [MkValue TInt (DInt (x + 1)); box_error None]
  | 1%nat, [MkValue _ (DString s)] =>
      if String.eqb s "" then Returns [box_error (errors_New "empty")]
      else Returns [box_error None]
  | 2%nat, [] =>
      Returns [MkValue TInt (DInt 5); MkValue (TPtr MyErr) DNil]
  | _, _ => Panics "unexpected call"
  end.

Definition succ_fn : any := Some (MkValue intErrFunc (DFunc 0)).
Definition check_fn : any := Some (MkValue errFunc (DFunc 1)).
Definition ptr_fn : any := Some (MkValue ptrErrFunc (DFunc 2)).
Definition int_ (z : Z) : any := Some (MkValue TInt (DInt z)).
Definition str_ (s : string) : any := Some (MkValue TString (DString s)).

(** ** Induction on types, through the lists of types they contain *)

Section GoType_induction.

Variable P : GoType -> Prop.
Hypothesis HBool : P TBool.
Hypothesis HInt : P TInt.
Hypothesis HUint8 : P TUint8.
Hypothesis HString : P TString.
Hypothesis HArray : forall n e, P e -> P (TArray n e).
Hypothesis HSlice : forall e, P e -> P (TSlice e).
Hypothesis HMap : forall k e, P k -> P e -> P (TMap k e).
Hypothesis HPtr : forall e, P e -> P (TPtr e).
Hypothesis HStruct : forall ns fs, Forall P fs -> P (TStruct ns fs).
Hypothesis HInterface : forall ms, P (TInterface ms).
Hypothesis HFunc :
  forall i o v, Forall P i -> Forall P o -> P (TFunc i o v).
Hypothesis HNamed : forall n u vm pm, P u -> P (TNamed n u vm pm).

Fixpoint GoType_nested_ind (t : GoType) : P t :=
  let all :=
    fix all (ts : list GoType) : Forall P ts :=
      match ts with
      | [] => List.Forall_nil P
      | x :: r => List.Forall_cons P x r (GoType_nested_ind x) (all r)
      end in
  match t with
  | TBool => HBool
  | TInt => HInt
  | TUint8 => HUint8
  | TString => HString
  | TArray n e => HArray n e (GoType_nested_ind e)
  | TSlice e => HSlice e (GoType_nested_ind e)
  | TMap k e => HMap k e (GoType_nested_ind k) (GoType_nested_ind e)
  | TPtr e => HPtr e (GoType_nested_ind e)
  | TStruct ns fs => HStruct ns fs (all fs)
  | TInterface ms => HInterface ms
  | TFunc i o v => HFunc i o v (all i) (all o)
  | TNamed n u vm pm => HNamed n u vm pm (GoType_nested_ind u)
  end.

End GoType_induction.

(** ** [funcIdx] *)

(** Go's [int] is 64 bits wide; [uint(i)] reads the same bits as an unsigned
    number. *)
Definition is_int (i : Z) : Prop := - 2 ^ 63 <= i < 2 ^ 63.
Definition uint (i : Z) : Z := i mod 2 ^ 64.

(** [reflect.ValueOf]: a nil [any] gives the zero [reflect.Value], which is
    [None] here. *)
Definition ValueOf (a : any) : option GoValue := a.

(** The elements stored in an array or a slice; a nil slice has none. *)
Definition elems (v : GoValue) : list GoValue :=
  match data v with DList xs => xs | _ => [] end.

Definition str (v : GoValue) : string :=
  match data v with DString s => s | _ => "" end.

Definition byteValue (c : Ascii.ascii) : GoValue :=
  MkValue TUint8 (DInt (Z.of_nat (Ascii.nat_of_ascii c))).

(** [Value.Index]: defined on arrays, slices and strings, panics on any
    other kind and on an index out of range.  The length of an array is
    the number of its elements. *)
Definition Index (rv : option GoValue) (i : Z) : M GoValue :=
  match rv with
  | None => panic (wrongKind "Index" KInvalid)
  | Some v =>
      match ValueKind v with
      | KArray =>
          if uint i >=? Z.of_nat (length (elems v)) then
            panic "reflect: array index out of range"
          else orPanic "reflect: array index out of range"
                 (elems v !! Z.to_nat i)
      | KSlice =>
          if uint i >=? Z.of_nat (length (elems v)) then
            panic "reflect: slice index out of range"
          else orPanic "reflect: slice index out of range"
                 (elems v !! Z.to_nat i)
      | KString =>
          if uint i >=? Z.of_nat (String.length (str v)) then
            panic "reflect: string index out of range"
          else orPanic "reflect: string index out of range"
                 (byteValue <$> String.get (Z.to_nat i) (str v))
      | k => panic (wrongKind "Index" k)
      end
  end.

Definition funcIdx (idx : Z) (arr : any) : M any :=
  v ← Index (ValueOf arr) idx;
  mret (Interface v).

(** [text/template] calls every template function through [safeCall],
    which recovers a panic of the function and returns it as the error of
    the call: the execution of the template stops with that error.  A
    panic is known here by its message only, so the error is the one made
    of that message, also where the engine would keep a panic value that
    is itself an error. *)
Definition safeCall (m : M any) : any * error :=
  match outcome m with
  | Returns v => (v, None)
  | Panics msg => (None, Errorf msg)
  end.

(** What [idx] can index, with its elements as [funcIdx] returns them. *)
Definition sequence (arr : any) : option (list any) :=
  match arr with
  | None => None
  | Some v =>
      match ValueKind v with
      | KArray | KSlice => Some (Interface <$> elems v)
      | KString =>
          Some ((fun c => Some (byteValue c))
                <$> String.list_ascii_of_string (str v))
      | _ => None
      end
  end.

(** ** Trust markers

    The string types of [html/template] that mark content as safe for one
    context. *)
Record HTML := mkHTML { HTML_string : string }.
Record HTMLAttr := mkHTMLAttr { HTMLAttr_string : string }.
Record JS := mkJS { JS_string : string }.
Record JSStr := mkJSStr { JSStr_string : string }.
Record Srcset := mkSrcset { Srcset_string : string }.

(** A Go type with its values, as they are seen once boxed in an [any]. *)
Class GoTyped (A : Type) := { goType : GoType; box : A -> GoValue }.

Definition stringType (name : string) : GoType := TNamed name TString [] [].

#[export] Instance string_GoTyped : GoTyped string :=
  {| goType := TString; box s := MkValue TString (DString s) |}.
#[export] Instance HTML_GoTyped : GoTyped HTML :=
  {| goType := stringType "template.HTML";
     box h := MkValue (stringType "template.HTML") (DString (HTML_string h)) |}.
#[export] Instance HTMLAttr_GoTyped : GoTyped HTMLAttr :=
  {| goType := stringType "template.HTMLAttr";
     box h :=
       MkValue (stringType "template.HTMLAttr")
         (DString (HTMLAttr_string h)) |}.
#[export] Instance JS_GoTyped : GoTyped JS :=
  {| goType := stringType "template.JS";
     box h := MkValue (stringType "template.JS") (DString (JS_string h)) |}.
#[export] Instance JSStr_GoTyped : GoTyped JSStr :=
  {| goType := stringType "template.JSStr";
     box h :=
       MkValue (stringType "template.JSStr") (DString (JSStr_string h)) |}.
#[export] Instance Srcset_GoTyped : GoTyped Srcset :=
  {| goType := stringType "template.Srcset";
     box h :=
       MkValue (stringType "template.Srcset") (DString (Srcset_string h)) |}.

Definition funcTrustHtml (s : string) : HTML := mkHTML s.
Definition funcTrustAttr (s : string) : HTMLAttr := mkHTMLAttr s.
Definition funcTrustJS (s : string) : JS := mkJS s.
Definition funcTrustJSStr (s : string) : JSStr := mkJSStr s.
Definition funcTrustSrcSet (s : string) : Srcset := mkSrcset s.

(** ** [funcHTTPError] *)

Definition HandlerError : GoType :=
  TNamed "caddyhttp.HandlerError"
    (TStruct ["Err"; "StatusCode"; "ID"; "Trace"]
       [errorType; TInt; TString; TString])
    ["Error() string"; "Unwrap() error"] [].

Definition field (v : GoValue) (i : nat) : option GoValue := elems v !! i.

Definition StatusCode (he : GoValue) : option Z :=
  match data <$> field he 1 with Some (DInt z) => Some z | _ => None end.

Section HTTPError.

(** The identifier [caddyhttp.Error] draws at random and the call stack
    it records. *)
Variables (randString traceString : string).

(** [caddyhttp.Error]: an error that already is a [HandlerError] keeps
    the fields it has set; any other error, and nil, is put in a new
    [HandlerError] with the given status code. *)
Definition caddyhttp_Error (statusCode : Z) (err : error) : GoValue :=
  let fresh :=
    MkValue HandlerError
      (DList [box_error err; MkValue TInt (DInt statusCode);
              MkValue TString (DString randString);
              MkValue TString (DString traceString)]) in
  match err with
  | Some (MkValue t (DList [e; MkValue _ (DInt sc); MkValue _ (DString id);
                            MkValue _ (DString tr)])) =>
      if GoType_eqb t HandlerError then
        MkValue HandlerError
          (DList [e;
                  MkValue TInt (DInt (if sc =? 0 then statusCode else sc));
                  MkValue TString
                    (DString (if String.eqb id "" then randString else id));
                  MkValue TString
                    (DString (if String.eqb tr "" then traceString else tr))])
      else fresh
  | _ => fresh
  end.

Definition funcHTTPError (statusCode : Z) : bool * error :=
  (false, Some (caddyhttp_Error statusCode None)).

End HTTPError.

(** ** [funcSanitizeHtml] *)

(** What funcs.go uses of the bluemonday library. *)
Class Bluemonday := {
  Policy : Type;
  StrictPolicy : Policy;
  UGCPolicy : Policy;
  AddTargetBlankToFullyQualifiedLinks : bool -> Policy -> Policy;
  AllowRelativeURLs : bool -> Policy -> Policy;
  Sanitize : Policy -> string -> string
}.

Section Sanitizer.

Context `{Bluemonday}.

Definition blueMondayPolicies : gmap string Policy :=
  {[ "strict" := StrictPolicy;
     "ugc" := UGCPolicy;
     "externalugc" :=
       AllowRelativeURLs false
         (AddTargetBlankToFullyQualifiedLinks true UGCPolicy) ]}.

Definition funcSanitizeHtml (policyName html : string) : HTML * error :=
  match blueMondayPolicies !! policyName with
  | None =>
      (mkHTML "",
       Errorf ("failed to find policy name '" +:+ policyName +:+ "'"))
  | Some policy => (mkHTML (Sanitize policy html), None)
  end.

End Sanitizer.

(** *** bluemonday at the level of elements

    A policy as the list of the elements it lets through and the list of
    the elements whose content it drops; the sanitizer keeps the tags of
    the former, with no attribute, removes every other tag, and drops the
    text inside the latter; the text it keeps is written escaped, and a
    tag left open at the end of the input is dropped.  This is
    bluemonday's behaviour on markup made of tags [<name>] and [</name>]
    and of text without [<] and without character references; comments,
    self-closing tags and a [<] that opens no tag are not modelled.  The
    strict policy is the empty one.  Of the user-generated-content policy
    the elements listed are let through without any attribute; its rules
    on attributes and links are left out. *)
Record ElementPolicy := {
  allowed : list string;
  skipContent : list string;
  targetBlank : bool;
  relativeURLs : bool
}.

Definition NewPolicy : ElementPolicy :=
  {| allowed := [];
     skipContent := ["frame"; "frameset"; "iframe"; "noembed"; "noframes";
                     "noscript"; "nostyle"; "object"; "script"; "style";
                     "title"];
     targetBlank := false;
     relativeURLs := false |}.

Definition AllowElements (names : list string) (p : ElementPolicy)
  : ElementPolicy :=
  {| allowed := (allowed p ++ names)%list;
     skipContent := skipContent p;
     targetBlank := targetBlank p;
     relativeURLs := relativeURLs p |}.

Definition ugcElements : list string :=
  ["article"; "aside"; "figure"; "section"; "summary";
   "h1"; "h2"; "h3"; "h4"; "h5"; "h6"; "hgroup";
   "br"; "div"; "hr"; "p"; "span"; "wbr";
   "abbr"; "acronym"; "cite"; "code"; "dfn"; "em"; "figcaption"; "mark";
   "s"; "samp"; "strong"; "sub"; "sup"; "var";
   "b"; "i"; "pre"; "small"; "strike"; "tt"; "u";
   "rp"; "rt"; "ruby";
   "blockquote";
   "ol"; "ul"; "li"; "dl"; "dt"; "dd";
   "table"; "thead"; "tbody"; "tfoot"; "tr"; "td"; "th"].

Inductive Token :=
  | TextToken (text : string)
  | StartTagToken (name : string)
  | EndTagToken (name : string).

Definition lower (c : Ascii.ascii) : Ascii.ascii :=
  let n := Ascii.nat_of_ascii c in
  if ((65 <=? n) && (n <=? 90))%nat then Ascii.ascii_of_nat (n + 32) else c.

Definition is_space (c : Ascii.ascii) : bool :=
  let n := Ascii.nat_of_ascii c in
  ((n =? 32) || (n =? 9) || (n =? 10) || (n =? 12) || (n =? 13))%nat.

(** The name of a tag: its text up to the first space or slash, in lower
    case. *)
Fixpoint tagName (body : string) : string :=
  match body with
  | EmptyString => EmptyString
  | String c rest =>
      if is_space c || Ascii.eqb c "/"%char then EmptyString
      else String (lower c) (tagName rest)
  end.

Definition tagToken (body : string) : Token :=
  match body with
  | String "/"%char rest => EndTagToken (tagName rest)
  | _ => StartTagToken (tagName body)
  end.

Definition textTokens (text : string) : list Token :=
  if String.eqb text "" then [] else [TextToken text].

(** [acc] is the text, or the inside of the tag, read so far.  The input
    that ends inside a tag ends the tokens before that tag. *)
Fixpoint tokenize (inTag : bool) (acc : string) (s : string) : list Token :=
  match s with
  | EmptyString => if inTag then [] else textTokens acc
  | String c rest =>
      if inTag then
        if Ascii.eqb c ">"%char then tagToken acc :: tokenize false "" rest
        else tokenize true (acc +:+ String c "") rest
      else
        if Ascii.eqb c "<"%char
        then (textTokens acc ++ tokenize true "" rest)%list
        else tokenize false (acc +:+ String c "") rest
  end.

Definition elem_in (name : string) (names : list string) : bool :=
  existsb (String.eqb name) names.

(** [html.EscapeString], with which a text token is written. *)
Fixpoint EscapeString (s : string) : string :=
  match s with
  | EmptyString => EmptyString
  | String c rest =>
      (if Ascii.eqb c "&"%char then "&amp;"
       else if Ascii.eqb c "'"%char then "&#39;"
       else if Ascii.eqb c "<"%char then "&lt;"
       else if Ascii.eqb c ">"%char then "&gt;"
       else if Ascii.eqb c (Ascii.ascii_of_nat 34) then "&#34;"
       else String c EmptyString)
      +:+ EscapeString rest
  end.

(** [skipping] counts the open elements whose content is dropped. *)
Fixpoint sanitizeTokens (p : ElementPolicy) (skipping : nat)
    (tokens : list Token) : string :=
  match tokens with
  | [] => ""
  | TextToken text :: rest =>
      (if (skipping =? 0)%nat then EscapeString text else "")
      +:+ sanitizeTokens p skipping rest
  | StartTagToken name :: rest =>
      if elem_in name (allowed p) then
        (if (skipping =? 0)%nat then "<" +:+ name +:+ ">" else "")
        +:+ sanitizeTokens p skipping rest
      else if elem_in name (skipContent p) then
        sanitizeTokens p (S skipping) rest
      else sanitizeTokens p skipping rest
  | EndTagToken name :: rest =>
      if elem_in name (allowed p) then
        (if (skipping =? 0)%nat then "</" +:+ name +:+ ">" else "")
        +:+ sanitizeTokens p skipping rest
      else if elem_in name (skipContent p) then
        sanitizeTokens p (pred skipping) rest
      else sanitizeTokens p skipping rest
  end.

Definition elementLevel : Bluemonday :=
  {| Policy := ElementPolicy;
     StrictPolicy := NewPolicy;
     UGCPolicy :=
       let p := AllowElements ugcElements NewPolicy in
       {| allowed := allowed p; skipContent := skipContent p;
          targetBlank := false; relativeURLs := true |};
     AddTargetBlankToFullyQualifiedLinks b p :=
       {| allowed := allowed p; skipContent := skipContent p;
          targetBlank := b; relativeURLs := relativeURLs p |};
     AllowRelativeURLs b p :=
       {| allowed := allowed p; skipContent := skipContent p;
          targetBlank := targetBlank p; relativeURLs := b |};
     Sanitize p html := sanitizeTokens p 0 (tokenize false "" html) |}.

(** ** [funcMarkdown] *)

(** The escaper of [html/template] for text in an HTML node, on a value of
    string kind: content typed [template.HTML] is written as it is,
    anything else is escaped. *)
Inductive contentType :=
  | contentTypePlain | contentTypeCSS | contentTypeHTML | contentTypeHTMLAttr
  | contentTypeJS | contentTypeJSStr | contentTypeURL | contentTypeSrcset.

Definition stringify (v : GoValue) : string * contentType :=
  let t := typ v in
  (str v,
   if GoType_eqb t (stringType "template.CSS") then contentTypeCSS
   else if GoType_eqb t (goType (A := HTML)) then contentTypeHTML
   else if GoType_eqb t (goType (A := HTMLAttr)) then contentTypeHTMLAttr
   else if GoType_eqb t (goType (A := JS)) then contentTypeJS
   else if GoType_eqb t (goType (A := JSStr)) then contentTypeJSStr
   else if GoType_eqb t (stringType "template.URL") then contentTypeURL
   else if GoType_eqb t (goType (A := Srcset)) then contentTypeSrcset
   else contentTypePlain).

(** The replacement character U+FFFD, in UTF-8. *)
Definition replacementChar : string :=
  String (ascii_of_nat 239) (String (ascii_of_nat 191)
    (String (ascii_of_nat 189) EmptyString)).

Definition htmlReplacement (c : Ascii.ascii) : string :=
  let n := Ascii.nat_of_ascii c in
  if (n =? 0)%nat then replacementChar
  else if (n =? 34)%nat then "&#34;"
  else if (n =? 38)%nat then "&amp;"
  else if (n =? 39)%nat then "&#39;"
  else if (n =? 43)%nat then "&#43;"
  else if (n =? 60)%nat then "&lt;"
  else if (n =? 62)%nat then "&gt;"
  else String c "".

Fixpoint htmlReplacer (s : string) : string :=
  match s with
  | EmptyString => EmptyString
  | String c rest => htmlReplacement c +:+ htmlReplacer rest
  end.

Definition htmlEscaper (v : GoValue) : string :=
  let '(s, t) := stringify v in
  match t with
  | contentTypeHTML => s
  | _ => htmlReplacer s
  end.

(** The types of [funcMarkdown] and [funcSanitizeHtml], as declared. *)
Definition funcMarkdownType : GoType :=
  TFunc [anyType] [TString; errorType] false.
Definition funcSanitizeHtmlType : GoType :=
  TFunc [TString; TString] [goType (A := HTML); errorType] false.

Section Markdown.

(** [caddy.ToString], and goldmark's [Convert] with the extensions and
    options of [funcMarkdown]: the rendered document, or an error. *)
Variable ToString : any -> string.
Variable Convert : string -> string + GoValue.

Definition funcMarkdown (input : any) : string * error :=
  let inputStr := ToString input in
  match Convert inputStr with
  | inr err => ("", Some err)
  | inl buf => (buf, None)
  end.

End Markdown.

(** ** [funcHumanize] *)

(** [strings.Split] on a separator of one character. *)
Fixpoint Split (sep : ascii) (s : string) : list string :=
  match s with
  | EmptyString => [""]
  | String c rest =>
      if Ascii.eqb c sep then "" :: Split sep rest
      else match Split sep rest with
           | part :: parts => String c part :: parts
           | [] => [String c ""]
           end
  end.

(** [s[n:]]. *)
Definition sliceFrom (n : nat) (s : string) : string :=
  String.substring n (String.length s - n) s.

(** [strconv.ParseUint(s, 10, 64)]. *)
Inductive NumError := ErrSyntax | ErrRange.

Definition maxUint64 : Z := 2 ^ 64 - 1.

Definition digit (c : ascii) : option Z :=
  let n := Z.of_nat (nat_of_ascii c) in
  if (48 <=? n) && (n <=? 57) then Some (n - 48) else None.

Fixpoint parseDigits (n : Z) (s : string) : Z + NumError :=
  match s with
  | EmptyString => inl n
  | String c rest =>
      match digit c with
      | None => inr ErrSyntax
      | Some d =>
          if n >=? maxUint64 / 10 + 1 then inr ErrRange
          else
            let n1 := n * 10 + d in
            if n1 >? maxUint64 then inr ErrRange else parseDigits n1 rest
      end
  end.

Definition ParseUint (s : string) : Z + NumError :=
  if String.eqb s "" then inr ErrSyntax else parseDigits 0 s.

(** The number a string of decimal digits denotes, read from the left
    with [acc] as the value of the digits before it. *)
Fixpoint decimalValue (acc : Z) (s : string) : option Z :=
  match s with
  | EmptyString => Some acc
  | String c rest => d ← digit c; decimalValue (acc * 10 + d) rest
  end.

Definition RFC1123Z : string := "Mon, 02 Jan 2006 15:04:05 -0700".

Section Humanize.

(** From the libraries: [strconv.Quote]; the time values with
    [time.Parse], which returns the time or the message of its error;
    [humanize.Bytes] and [humanize.Time]. *)
Variable Quote : string -> string.
Variable Time : Type.
Variable time_Parse : string -> string -> Time + string.
Variable humanize_Bytes : Z -> string.
Variable humanize_Time : Time -> string.

(** The [Error] method of [strconv.NumError]. *)
Definition NumError_Error (num : string) (e : NumError) : string :=
  "strconv.ParseUint: parsing " +:+ Quote num +:+ ": "
  +:+ match e with
      | ErrSyntax => "invalid syntax"
      | ErrRange => "value out of range"
      end.

(** [strings.Split] returns at least one part, so that [parts[0]] is
    there. *)
Definition funcHumanize (formatType data : string) : string * error :=
  let parts := Split ":" formatType in
  let part0 := hd "" parts in
  if String.eqb part0 "size" then
    match ParseUint data with
    | inr dataerr =>
        ("", Errorf ("humanize: size cannot be parsed: "
                     +:+ NumError_Error data dataerr))
    | inl dataint => (humanize_Bytes dataint, None)
    end
  else if String.eqb part0 "time" then
    let timelayout :=
      if (1 <? length parts)%nat
      then sliceFrom (String.length part0 + 1) formatType
      else RFC1123Z in
    match time_Parse timelayout data with
    | inr dataerr =>
        ("", Errorf ("humanize: time cannot be parsed: " +:+ dataerr))
    | inl dataint => (humanize_Time dataint, None)
    end
  else ("", Errorf "no know function was given").

End Humanize.

(** *** [humanize.Bytes] in exact arithmetic

    The library computes [floor (log s / log 1000)] and the rounded
    mantissa in [float64]; here both are computed on integers.  The two
    differ where the [float64] logarithm rounds up to a whole number, as
    at [10^15 - 1]. *)
Definition sizes : list string := ["B"; "kB"; "MB"; "GB"; "TB"; "PB"; "EB"].

Fixpoint magnitude (fuel : nat) (s : Z) : nat :=
  match fuel with
  | O => O
  | S fuel' => if s <? 1000 then O else S (magnitude fuel' (s / 1000))
  end.

Definition Bytes (s : Z) : string :=
  if s <? 10 then pretty s +:+ " B"
  else
    let e := magnitude 7 s in
    let suffix := default "" (sizes !! e) in
    let unit := 1000 ^ Z.of_nat e in
    (* val = floor (s / unit * 10 + 0.5) / 10, kept in tenths *)
    let tenths := (20 * s + unit) / (2 * unit) in
    if tenths <? 100 then
      pretty (tenths / 10) +:+ "." +:+ pretty (tenths mod 10) +:+ " " +:+ suffix
    else
      let q := tenths / 10 in
      let r := tenths mod 10 in
      let rounded :=
        if (5 <? r) || ((r =? 5) && Z.odd q) then q + 1 else q in
      pretty rounded +:+ " " +:+ suffix.

(** A stand-in for the [time] package in examples: the time is the number
    of days before now, read from [data] in the layout ["days"]. *)
Definition sampleParse (layout data : string) : Z + string :=
  if String.eqb layout "days" then
    match ParseUint data with
    | inl n => inl n
    | inr _ => inr "cannot parse days"
    end
  else inr "cannot parse with this layout".

Definition sampleTime (days : Z) : string :=
  if days <? 7 then pretty days +:+ " days ago"
  else pretty (days / 7) +:+ " weeks ago".

(** ** Reload and dispatch *)

Module Reload.

(** Modelled from the spec: the Reload Supervisor and the Request
    Dispatcher (sections 4.3, 4.4 and 5), whose code is not among the
    source files.  Template sets live in a shared store and are referred
    to by address; [current] is the one reference shared by the
    supervisor, which alone writes it, and the requests, which read it.
    The supervisor builds a new set at a fresh address, one template at
    a time, and publishes it by storing its address in [current]; a
    request reads [current] once, when it starts, and goes through the
    address it has read from then on. *)
Record TemplateSet := {
  routes : gmap string string;
  templates : gmap string string
}.

Definition emptySet : TemplateSet := {| routes := ∅; templates := ∅ |}.

Definition addTemplate (path name body : string) (ts : TemplateSet)
  : TemplateSet :=
  {| routes := <[path := name]> (routes ts);
     templates := <[name := body]> (templates ts) |}.

Definition resolve (ts : TemplateSet) (path : string) : option string :=
  routes ts !! path.

Definition render (ts : TemplateSet) (tmpl : option string)
  : option string :=
  tmpl ≫= fun name => templates ts !! name.

(** A request served within one set. *)
Definition serve (ts : TemplateSet) (path : string) : option string :=
  render ts (resolve ts path).

Inductive Phase :=
  | Started
  | Routed (tmpl : option string)
  | Done (tmpl : option string) (body : option string).

Record Request := { path : string; snapshot : nat; phase : Phase }.

Inductive Supervisor := Idle | Building (addr : nat).

Record System := {
  store : gmap nat TemplateSet;
  current : nat;
  supervisor : Supervisor;
  requests : gmap nat Request
}.

Definition setAt (s : System) (addr : nat) : TemplateSet :=
  default emptySet (store s !! addr).

Definition withRequest (s : System) (id : nat) (r : Request) : System :=
  {| store := store s; current := current s; supervisor := supervisor s;
     requests := <[id := r]> (requests s) |}.

Definition withSet (s : System) (addr : nat) (ts : TemplateSet)
    (sup : Supervisor) : System :=
  {| store := <[addr := ts]> (store s); current := current s;
     supervisor := sup; requests := requests s |}.

(** The single write to the shared reference. *)
Definition publish (s : System) (addr : nat) : System :=
  {| store := store s; current := addr; supervisor := Idle;
     requests := requests s |}.

Definition abandon (s : System) : System :=
  {| store := store s; current := current s; supervisor := Idle;
     requests := requests s |}.

(** Modelled from the spec: one step of one participant, a request or the
    supervisor (section 5: requests run concurrently with the supervisor's
    background task); the steps interleave in any order. *)
Inductive step : System -> System -> Prop :=
  | step_start s id p :
      requests s !! id = None ->
      step s (withRequest s id
                {| path := p; snapshot := current s; phase := Started |})
  | step_route s id r :
      requests s !! id = Some r -> phase r = Started ->
      step s (withRequest s id
                {| path := path r; snapshot := snapshot r;
                   phase := Routed (resolve (setAt s (snapshot r)) (path r)) |})
  | step_render s id r tmpl :
      requests s !! id = Some r -> phase r = Routed tmpl ->
      step s (withRequest s id
                {| path := path r; snapshot := snapshot r;
                   phase := Done tmpl (render (setAt s (snapshot r)) tmpl) |})
  | step_build_begin s addr :
      supervisor s = Idle -> store s !! addr = None ->
      step s (withSet s addr emptySet (Building addr))
  | step_build_add s addr p name body :
      supervisor s = Building addr ->
      step s (withSet s addr (addTemplate p name body (setAt s addr))
                (Building addr))
  | step_publish s addr :
      supervisor s = Building addr -> step s (publish s addr)
  | step_fail s addr :
      supervisor s = Building addr -> step s (abandon s).

(** The states in which the set under construction is private to the
    supervisor. *)
Record consistent (s : System) : Prop := {
  current_stored : is_Some (store s !! current s);
  snapshots_stored :
    forall id r, requests s !! id = Some r ->
                 is_Some (store s !! snapshot r);
  building_stored :
    forall addr, supervisor s = Building addr -> is_Some (store s !! addr);
  building_private :
    forall addr, supervisor s = Building addr ->
      addr <> current s /\
      forall id r, requests s !! id = Some r -> snapshot r <> addr
}.

Definition initial (ts : TemplateSet) : System :=
  {| store := {[ 0%nat := ts ]}; current := 0%nat; supervisor := Idle;
     requests := ∅ |}.

(** What a request has seen so far agrees with the set [ts]. *)
Definition served_from (ts : TemplateSet) (r : Request) : Prop :=
  match phase r with
  | Started => True
  | Routed tmpl => tmpl = resolve ts (path r)
  | Done tmpl body => tmpl = resolve ts (path r) /\ body = serve ts (path r)
  end.

(** A request that holds the address [a] of the set [ts] still finds
    [ts] there, and what it has routed and rendered comes from [ts]. *)
Definition tracks (id a : nat) (ts : TemplateSet) (p : string)
    (s : System) : Prop :=
  exists r, requests s !! id = Some r /\
            snapshot r = a /\ path r = p /\
            store s !! a = Some ts /\ served_from ts r.

(** A run: a request for [/] starts; a reload builds a new set and
    publishes it; the request is then routed and rendered. *)
Definition sampleSet : TemplateSet :=
  addTemplate "/" "index" "<h1>home</h1>" emptySet.

Definition run_started : System :=
  withRequest (initial sampleSet) 1
    {| path := "/"; snapshot := 0; phase := Started |}.
Definition run_building : System :=
  withSet run_started 1 emptySet (Building 1).
Definition run_built : System :=
  withSet run_building 1
    (addTemplate "/" "index" "<h1>new</h1>" (setAt run_building 1))
    (Building 1).
Definition run_published : System := publish run_built 1.
Definition run_routed : System :=
  withRequest run_published 1
    {| path := "/"; snapshot := 0; phase := Routed (Some "index") |}.
Definition run_done : System :=
  withRequest run_routed 1
    {| path := "/"; snapshot := 0;
       phase := Done (Some "index") (Some "<h1>home</h1>") |}.

End Reload.

(** *** Sample data *)

Definition sampleSlice : any :=
  Some (MkValue (TSlice TInt)
          (DList [MkValue TInt (DInt 10); MkValue TInt (DInt 20);
                  MkValue TInt (DInt 30)])).

(** Stand-ins for [caddy.ToString] and for goldmark on a single paragraph
    of plain text. *)
Definition sampleToString (input : any) : string :=
  match input with Some v => str v | None => "" end.

Definition sampleConvert (src : string) : string + GoValue :=
  inl ("<p>" +:+ src +:+ "</p>").

(** ** The functions of the library as function values *)

#[export] Instance bool_GoTyped : GoTyped bool :=
  {| goType := TBool; box b := MkValue TBool (DBool b) |}.

(** The types of the other functions, as declared. *)
Definition resultType : GoType :=
  TNamed "xtemplate.result" (TStruct ["Value"; "Error"] [anyType; errorType])
    [] ["OK() bool"].
Definition funcTryType : GoType :=
  TFunc [anyType; TSlice anyType] [TPtr resultType; errorType] true.
Definition funcIdxType : GoType := TFunc [TInt; anyType] [anyType] false.
Definition funcHumanizeType : GoType :=
  TFunc [TString; TString] [TString; errorType] false.
Definition funcHTTPErrorType : GoType :=
  TFunc [TInt] [TBool; errorType] false.
Definition funcTrustHtmlType : GoType :=
  TFunc [TString] [goType (A := HTML)] false.
Definition funcTrustAttrType : GoType :=
  TFunc [TString] [goType (A := HTMLAttr)] false.
Definition funcTrustJSType : GoType :=
  TFunc [TString] [goType (A := JS)] false.
Definition funcTrustJSStrType : GoType :=
  TFunc [TString] [goType (A := JSStr)] false.
Definition funcTrustSrcSetType : GoType :=
  TFunc [TString] [goType (A := Srcset)] false.

Section LibraryCode.

Variable Quote : string -> string.
Variable Time : Type.
Variable time_Parse : string -> string -> Time + string.
Variable humanize_Bytes : Z -> string.
Variable humanize_Time : Time -> string.
Variables (randString traceString : string).

(** What a reflective call of [funcHumanize] (function 0) and of
    [funcHTTPError] (function 1) does: the arguments are read at the
    parameters' types, the outputs come back at the output types. *)
Definition libraryCode (c : nat) (args : list GoValue)
  : Outcome (list GoValue) :=
  match c, args with
  | 0%nat, [MkValue _ (DString formatType); MkValue _ (DString data)] =>
      let '(s, err) :=
        funcHumanize Quote Time time_Parse humanize_Bytes humanize_Time
          formatType data in
      Returns [box s; box_error err]
  | 1%nat, [MkValue _ (DInt statusCode)] =>
      let '(b, err) := funcHTTPError randString traceString statusCode in
      Returns [box b; box_error err]
  | _, _ => Panics "unexpected call"
  end.

End LibraryCode.

Definition humanize_fn : GoValue := MkValue funcHumanizeType (DFunc 0).
Definition httpError_fn : GoValue := MkValue funcHTTPErrorType (DFunc 1).

(** [func(xs ...int) (int, error)], function 3 of the samples: the number
    of its arguments. *)
Definition variadicFunc : GoType :=
  TFunc [TSlice TInt] [TInt; errorType] true.

Definition sampleCode' (c : nat) (args : list GoValue)
  : Outcome (list GoValue) :=
  match c, args with
  | 3%nat, [xs] =>
      Returns [MkValue TInt (DInt (Z.of_nat (length (elems xs))));
               box_error None]
  | 4%nat, _ => Panics "boom"
  | _, _ => sampleCode c args
  end.

Definition ints (zs : list Z) : GoValue :=
  MkValue (TSlice TInt) (DList ((fun z => MkValue TInt (DInt z)) <$> zs)).

(** * Properties *)

Lemma list_eqb_sound {A} (eqb : A -> A -> bool) (xs : list A) :
  Forall (fun x => forall y, eqb x y = true -> x = y) xs ->
  forall ys, list_eqb eqb xs ys = true -> xs = ys.
Proof.
  induction 1 as [|x xs Hx _ IH]; intros [|y ys] E; simpl in E;
    try discriminate; [reflexivity|].
  apply andb_true_iff in E as [E1 E2].
  f_equal; [apply Hx, E1 | apply IH, E2].
Qed.

Lemma list_eqb_string_sound (xs ys : list string) :
  list_eqb String.eqb xs ys = true -> xs = ys.
Proof.
  apply list_eqb_sound, Forall_forall.
  intros x _ y E. apply String.eqb_eq, E.
Qed.

Lemma GoType_eqb_sound (a : GoType) :
  forall b, GoType_eqb a b = true -> a = b.
Proof.
  induction a using GoType_nested_ind; intros b E; destruct b;
    simpl in E; try discriminate; try reflexivity;
    repeat match goal with
           | H : _ && _ = true |- _ => apply andb_true_iff in H as [? ?]
           end.
  - f_equal; [apply Nat.eqb_eq; assumption | auto].
  - f_equal; auto.
  - f_equal; auto.
  - f_equal; auto.
  - f_equal; [apply list_eqb_string_sound; assumption
             | eapply list_eqb_sound; eassumption].
  - f_equal. apply list_eqb_string_sound; assumption.
  - f_equal; [eapply list_eqb_sound; eassumption
             | eapply list_eqb_sound; eassumption
             | apply Bool.eqb_prop; assumption].
  - f_equal; [apply String.eqb_eq; assumption | auto
             | apply list_eqb_string_sound; assumption
             | apply list_eqb_string_sound; assumption].
Qed.

Lemma list_eqb_refl {A} (eqb : A -> A -> bool) (xs : list A) :
  Forall (fun x => eqb x x = true) xs -> list_eqb eqb xs xs = true.
Proof.
  induction 1 as [|x xs Hx _ IH]; simpl; [reflexivity|].
  rewrite Hx, IH. reflexivity.
Qed.

Lemma list_eqb_string_refl (xs : list string) :
  list_eqb String.eqb xs xs = true.
Proof.
  apply list_eqb_refl, Forall_forall. intros x _. apply String.eqb_refl.
Qed.

Lemma GoType_eqb_refl (a : GoType) : GoType_eqb a a = true.
Proof.
  induction a using GoType_nested_ind; simpl;
    repeat match goal with
           | H : GoType_eqb _ _ = true |- _ => rewrite H; clear H
           end;
    rewrite ?Nat.eqb_refl, ?String.eqb_refl, ?list_eqb_string_refl,
      ?Bool.eqb_reflx, ?(list_eqb_refl GoType_eqb) by assumption;
    reflexivity.
Qed.

Lemma AssignableTo_refl (t : GoType) : AssignableTo t t = true.
Proof.
  unfold AssignableTo, directlyAssignable. rewrite GoType_eqb_refl.
  reflexivity.
Qed.

Lemma Kind_eqb_neq (a b : Kind) : Kind_eqb a b = false <-> a <> b.
Proof. destruct a, b; simpl; split; intros; congruence. Qed.

(** The method set of an interface type is the interface's own list. *)
Lemma method_set_interface (t : GoType) (ms : list string) :
  underlying t = TInterface ms -> method_set t = ms.
Proof.
  destruct t; simpl; intros E; try discriminate.
  - congruence.
  - rewrite E. reflexivity.
Qed.

Lemma implements_error (t : GoType) :
  implements errorType t = has_method (method_set t) "Error() string".
Proof. unfold implements. simpl. apply andb_true_r. Qed.

(** ** The call monad *)

Lemma M_bind_assoc {A B C} (m : M A) (f : A -> M B) (g : B -> M C) :
  (m ≫= f) ≫= g = m ≫= (fun x => f x ≫= g).
Proof.
  destruct m as [tr [a|msg]]; simpl; [|reflexivity].
  destruct (f a) as [tr1 [b|msg]]; simpl; [|reflexivity].
  destruct (g b) as [tr2 r]. rewrite app_assoc. reflexivity.
Qed.

Lemma M_bind_ext {A B} (m : M A) (f g : A -> M B) :
  (forall x, f x = g x) -> m ≫= f = m ≫= g.
Proof.
  intros E. destruct m as [tr [a|msg]]; simpl; [|reflexivity].
  rewrite E. reflexivity.
Qed.

Lemma M_bind_ret {A B} (a : A) (f : A -> M B) : mret a ≫= f = f a.
Proof. simpl. destruct (f a). reflexivity. Qed.

Lemma M_bind_returns {A B} tr (a : A) (f : A -> M B) :
  (tr, Returns a) ≫= f = ((tr ++ trace (f a))%list, outcome (f a)).
Proof. simpl. destruct (f a). reflexivity. Qed.

(** ** [funcTry] *)

Example funcTry_success :
  funcTry sampleCode succ_fn [int_ 4]
  = ([{| inv_code := 0; inv_args := [MkValue TInt (DInt 4)] |}],
     Returns (Some {| Value := int_ 5; Error := None |}, None)).
Proof. reflexivity. Qed.

Example funcTry_failure :
  funcTry sampleCode succ_fn [int_ (-4)]
  = ([{| inv_code := 0; inv_args := [MkValue TInt (DInt (-4))] |}],
     Returns (Some {| Value := int_ 0; Error := errors_New "negative" |},
              None)).
Proof. reflexivity. Qed.

Example funcTry_one_output :
  funcTry sampleCode check_fn [str_ "a"]
  = ([{| inv_code := 1; inv_args := [MkValue TString (DString "a")] |}],
     Returns (Some {| Value := None; Error := None |}, None)) /\
  funcTry sampleCode check_fn [None]
  = ([{| inv_code := 1; inv_args := [MkValue TString (DString "")] |}],
     Returns (Some {| Value := None; Error := errors_New "empty" |}, None)).
Proof. split; reflexivity. Qed.

Example funcTry_not_a_function :
  funcTry sampleCode (int_ 3) []
  = ([], Returns (None, Errorf "not a function")).
Proof. reflexivity. Qed.

(** A nil pointer of a defined error type is not a nil [error]: boxed in
    the interface it compares different from nil, here as everywhere in
    Go. *)
Example funcTry_nil_pointer_of_error_type :
  funcTry sampleCode ptr_fn []
  = ([{| inv_code := 2; inv_args := [] |}],
     Returns (Some {| Value := int_ 5;
                      Error := Some (MkValue (TPtr MyErr) DNil) |}, None)).
Proof. reflexivity. Qed.

(** Once the signature is accepted, [funcTry] is the call followed by the
    wrapping of its outputs. *)
Lemma funcTry_accepted code fnv n last args :
  accepted fnv n last ->
  funcTry code (Some fnv) args = invocation code fnv args ≫= wrapOutputs n.
Proof.
  intros (Hk & Hn & Hn12 & Hlast & Hass).
  unfold funcTry, invocation, wrapOutputs.
  rewrite Hk, Hn. cbn [Kind_eqb negb orPanic].
  rewrite M_bind_ret.
  replace (negb (n =? 1)%nat && negb (n =? 2)%nat) with false
    by (destruct Hn12; subst; reflexivity).
  rewrite Hlast. cbn [orPanic]. rewrite M_bind_ret, Hass. cbn [negb].
  rewrite M_bind_assoc. apply M_bind_ext. intros reflectArgs.
  rewrite M_bind_assoc. reflexivity.
Qed.

(** The error output of an accepted function, when not nil, implements
    [error]. *)
Lemma accepted_output_is_error last oe e :
  AssignableTo last errorType = true -> conforms oe last ->
  Interface oe = Some e -> implements errorType (typ e) = true.
Proof.
  intros Hass [Ht Hd] Hi. rewrite implements_error.
  assert (Hms : forall ms, underlying last = TInterface ms ->
                           has_method ms "Error() string" = true).
  { intros ms Hu. unfold AssignableTo, directlyAssignable in Hass.
    apply orb_true_iff in Hass as [Hass|Hass].
    - apply orb_true_iff in Hass as [E|E].
      + apply GoType_eqb_sound in E. subst last. simpl in Hu.
        inversion Hu. reflexivity.
      + apply andb_true_iff in E as [_ E]. apply GoType_eqb_sound in E.
        simpl in E. rewrite Hu in E. inversion E. reflexivity.
    - rewrite implements_error in Hass.
      rewrite (method_set_interface _ _ Hu) in Hass. exact Hass. }
  unfold Interface, ValueKind in Hi. rewrite Ht in Hi.
  destruct (kind_of last) eqn:Hk;
    try (inversion Hi; subst e; rewrite Ht;
         unfold AssignableTo, directlyAssignable in Hass;
         apply orb_true_iff in Hass as [Hass|Hass];
         [ apply orb_true_iff in Hass as [E|E];
           [ apply GoType_eqb_sound in E; subst last; discriminate Hk
           | apply andb_true_iff in E as [_ E]; apply GoType_eqb_sound in E;
             unfold kind_of in Hk; rewrite <- E in Hk; discriminate Hk ]
         | rewrite implements_error in Hass; exact Hass ]).
  destruct (data oe) eqn:Hdata; try discriminate. inversion Hi; subst dyn.
  specialize (Hd eq_refl). unfold implements in Hd.
  destruct (underlying last) eqn:Hu; try discriminate.
  specialize (Hms _ eq_refl).
  unfold has_method in Hms. apply existsb_exists in Hms as (m & Hin & Hm).
  apply String.eqb_eq in Hm. subst m.
  rewrite forallb_forall in Hd. apply Hd. exact Hin.
Qed.

(** C1.  A value that is nil, that is not a function, that is a function
    with no output or with three outputs or more, or whose last output type
    is not assignable to [error], makes [funcTry] return a nil result and
    the error that names the reason; nothing has been invoked. *)
Theorem funcTry_rejects_before_calling code fn args msg :
  Rejected fn msg ->
  funcTry code fn args = ([], Returns (None, Errorf msg)).
Proof.
  intros H. destruct H as [|v Hk|v n Hk Hn Hout|v n last Hk Hn Hn12 Hlast Hass];
    unfold funcTry.
  - reflexivity.
  - apply Kind_eqb_neq in Hk. rewrite Hk. reflexivity.
  - rewrite Hk, Hn. cbn [Kind_eqb negb orPanic]. rewrite M_bind_ret.
    replace (negb (n =? 1)%nat && negb (n =? 2)%nat) with true; [reflexivity|].
    symmetry. apply andb_true_iff.
    split; apply negb_true_iff, Nat.eqb_neq; lia.
  - rewrite Hk, Hn. cbn [Kind_eqb negb orPanic]. rewrite M_bind_ret.
    replace (negb (n =? 1)%nat && negb (n =? 2)%nat) with false
      by (destruct Hn12; subst; reflexivity).
    rewrite Hlast. cbn [orPanic]. rewrite M_bind_ret, Hass. reflexivity.
Qed.

Lemma funcTry_rejects_before_calling_witness :
  funcTry sampleCode
    (Some (MkValue (TFunc [] [TInt; TInt; TInt] false) (DFunc 0))) [int_ 1]
  = ([], Returns (None, Errorf "cannot call func that has 3 outputs")).
Proof.
  apply (funcTry_rejects_before_calling sampleCode
           (Some (MkValue (TFunc [] [TInt; TInt; TInt] false) (DFunc 0)))
           [int_ 1] "cannot call func that has 3 outputs").
  apply (rej_outputs _ 3%nat); [reflexivity | reflexivity | right; lia].
Defined.

(** Every value of the four kinds the claim lists is [Rejected]. *)
Lemma Rejected_complete (fn : any) :
  match fn with
  | None => True
  | Some v =>
      ValueKind v <> KFunc \/
      exists ins outs variadic,
        underlying (typ v) = TFunc ins outs variadic /\
        (length outs = 0 \/ 3 <= length outs \/
         exists last, outs !! (length outs - 1) = Some last /\
                      AssignableTo last errorType = false)%nat
  end ->
  exists msg, Rejected fn msg.
Proof.
  destruct fn as [v|]; [|intros _; eexists; constructor].
  intros [Hk|(ins & outs & variadic & Hu & H)].
  - eexists. apply rej_not_func, Hk.
  - assert (Hkind : ValueKind v = KFunc)
      by (unfold ValueKind, kind_of; rewrite Hu; reflexivity).
    assert (Hn : NumOut (typ v) = Some (length outs))
      by (unfold NumOut; rewrite Hu; reflexivity).
    destruct (decide (length outs = 1 \/ length outs = 2)%nat) as [H12|Hn12].
    + destruct H as [H|[H|(last & Hl & Ha)]]; try lia.
      eexists. eapply rej_last; eauto. unfold Out. rewrite Hu. exact Hl.
    + eexists. eapply rej_outputs; eauto. lia.
Qed.

(** C2, amended.  For an accepted function whose call returns, the result
    holds the outputs of the call, read as [funcTry] reads them, through
    [Interface].  With two outputs [(v, e)]: if [e] read so is nil, the
    result has [Value] v, a nil [Error] and [OK] true; if it is the
    non-nil error [err], the result has [Error] err and [OK] false.  With
    the error as the only output, [Value] stays nil.  When the last output
    is declared of an interface type, such as [error], a nil [e] is read
    as nil.  When it is declared of a concrete type that implements
    [error], [e] is never read as nil: the result has [Error] e and [OK]
    false, also when [e] is a nil pointer. *)
Theorem funcTry_wraps_the_outputs code fnv n last args tr out oe :
  accepted fnv n last ->
  invocation code fnv args = (tr, Returns out) ->
  length out = n ->
  out !! (n - 1)%nat = Some oe ->
  conforms oe last ->
  (forall ov, out = [ov; oe] -> Interface oe = None ->
     let r := {| Value := Interface ov; Error := None |} in
     funcTry code (Some fnv) args = (tr, Returns (Some r, None)) /\
     OK r = true) /\
  (forall ov err, out = [ov; oe] -> Interface oe = Some err ->
     let r := {| Value := Interface ov; Error := Some err |} in
     funcTry code (Some fnv) args = (tr, Returns (Some r, None)) /\
     OK r = false) /\
  (out = [oe] ->
     let r := {| Value := None; Error := Interface oe |} in
     funcTry code (Some fnv) args = (tr, Returns (Some r, None))) /\
  (forall ov, out = [ov; oe] -> kind_of last = KInterface ->
     data oe = DNil ->
     let r := {| Value := Interface ov; Error := None |} in
     funcTry code (Some fnv) args = (tr, Returns (Some r, None)) /\
     OK r = true) /\
  (forall ov, out = [ov; oe] -> kind_of last <> KInterface ->
     let r := {| Value := Interface ov; Error := Some oe |} in
     funcTry code (Some fnv) args = (tr, Returns (Some r, None)) /\
     OK r = false).
Proof.
  intros Hacc Hinv Hlen Hoe Hconf.
  pose proof Hacc as (_ & _ & _ & _ & Hass).
  rewrite (funcTry_accepted _ _ _ _ _ Hacc), Hinv.
  rewrite M_bind_returns.
  split; [|split; [|split; [|split]]].
  - intros ov -> Hnil r. simpl in Hlen. subst n. split; [|reflexivity].
    unfold wrapOutputs, index. cbn -[implements Interface]. rewrite Hnil. cbn.
    rewrite app_nil_r. reflexivity.
  - intros ov err -> Herr r. simpl in Hlen. subst n. split; [|reflexivity].
    unfold wrapOutputs, index. cbn -[implements Interface]. rewrite Herr.
    rewrite (accepted_output_is_error _ _ _ Hass Hconf Herr). cbn.
    rewrite app_nil_r. reflexivity.
  - intros -> r. simpl in Hlen. subst n. unfold wrapOutputs, index.
    cbn -[implements Interface].
    subst r. destruct (Interface oe) as [e|] eqn:Herr.
    + rewrite (accepted_output_is_error _ _ _ Hass Hconf Herr). cbn.
      rewrite app_nil_r. reflexivity.
    + cbn. rewrite app_nil_r. reflexivity.
  - intros ov -> Hkind Hdata r. simpl in Hlen. subst n.
    assert (Hnil : Interface oe = None).
    { unfold Interface, ValueKind. destruct Hconf as [-> _].
      rewrite Hkind, Hdata. reflexivity. }
    split; [|reflexivity].
    unfold wrapOutputs, index. cbn -[implements Interface]. rewrite Hnil. cbn.
    rewrite app_nil_r. reflexivity.
  - intros ov -> Hkind r. simpl in Hlen. subst n.
    assert (Herr : Interface oe = Some oe).
    { unfold Interface, ValueKind. pose proof Hconf as [Htyp _].
      rewrite Htyp. destruct (kind_of last); try reflexivity.
      contradiction. }
    split; [|reflexivity].
    unfold wrapOutputs, index. cbn -[implements Interface]. rewrite Herr.
    rewrite (accepted_output_is_error _ _ _ Hass Hconf Herr). cbn.
    rewrite app_nil_r. reflexivity.
Qed.

(** The claim as the specification words it fails on
    [func() (int, *MyErr) { return 5, nil }]: [funcTry] accepts the
    function, since [*MyErr] is assignable to [error]; the call returns 5
    and a nil pointer; and the result has a non-nil [Error], the nil
    pointer boxed in the interface, and [OK] false. *)
Lemma funcTry_nil_pointer_counterexample :
  accepted (MkValue ptrErrFunc (DFunc 2)) 2 (TPtr MyErr) /\
  sampleCode 2 []
  = Returns [MkValue TInt (DInt 5); MkValue (TPtr MyErr) DNil] /\
  exists r : result,
    funcTry sampleCode (Some (MkValue ptrErrFunc (DFunc 2))) []
    = ([{| inv_code := 2; inv_args := [] |}], Returns (Some r, None)) /\
    Value r = int_ 5 /\
    Error r = Some (MkValue (TPtr MyErr) DNil) /\
    Error r <> None /\
    OK r = false.
Proof.
  split; [|split].
  - repeat split; try reflexivity. right; reflexivity.
  - reflexivity.
  - exists {| Value := int_ 5; Error := Some (MkValue (TPtr MyErr) DNil) |}.
    repeat split; try reflexivity. discriminate.
Qed.

Lemma funcTry_wraps_the_outputs_witness :
  funcTry sampleCode succ_fn [int_ 4]
  = ([{| inv_code := 0; inv_args := [MkValue TInt (DInt 4)] |}],
     Returns (Some {| Value := int_ 5; Error := None |}, None)).
Proof.
  refine (proj1 (proj1
    (funcTry_wraps_the_outputs sampleCode (MkValue intErrFunc (DFunc 0))
       2%nat errorType [int_ 4]
       [{| inv_code := 0; inv_args := [MkValue TInt (DInt 4)] |}]
       [MkValue TInt (DInt 5); box_error None] (box_error None)
       _ eq_refl eq_refl eq_refl _)
    (MkValue TInt (DInt 5)) eq_refl eq_refl)).
  - repeat split; try reflexivity. right; reflexivity.
  - split; [reflexivity | exact I].
Defined.

(** The loop over [args] never fails while there is a parameter for each
    argument, and yields one value for each argument. *)
Lemma reflectArgsFrom_zeroFilled ft ins outs variadic :
  underlying ft = TFunc ins outs variadic ->
  forall args i, (i + length args <= length ins)%nat ->
  reflectArgsFrom ft i args = mret (zeroFilled (drop i ins) args).
Proof.
  intros Hu. induction args as [|a args IH]; intros i Hlen; [reflexivity|].
  simpl in Hlen.
  destruct (lookup_lt_is_Some_2 ins i) as [t Ht]; [lia|].
  rewrite (drop_S _ _ _ Ht).
  cbn [reflectArgsFrom zeroFilled zip_with].
  rewrite (IH (S i)) by lia.
  destruct a as [v|].
  - rewrite !M_bind_ret. reflexivity.
  - unfold In. rewrite Hu, Ht. cbn [orPanic]. rewrite !M_bind_ret.
    reflexivity.
Qed.

Lemma zeroFilled_length ins args :
  (length args <= length ins)%nat ->
  length (zeroFilled ins args) = length args.
Proof. intros H. unfold zeroFilled. rewrite length_zip_with. lia. Qed.

Lemma assignable_args_zeroFilled ins args :
  Forall2 (fun a t => forall v, a = Some v -> AssignableTo (typ v) t = true)
    args ins ->
  assignable_args (zeroFilled ins args) ins = true.
Proof.
  unfold assignable_args, zeroFilled.
  induction 1 as [|a t args ins Ha _ IH]; [reflexivity|].
  cbn. rewrite IH, andb_true_r.
  destruct a as [v|]; cbn; [apply Ha; reflexivity | apply AssignableTo_refl].
Qed.

(** C3, as the code has it.  [funcTry] passes one value for each argument it
    was given: a nil argument becomes the zero value of the parameter at its
    position, any other argument is passed as it is, and nothing is added
    for a parameter that has no argument.  With fewer arguments than
    parameters the reflective call panics and the function is not invoked;
    with as many, a function that is not variadic is invoked on the zero
    values in place of the nils. *)
Theorem funcTry_zero_fills_nil_arguments_only
    code fnv n last ins outs variadic args :
  accepted fnv n last ->
  underlying (typ fnv) = TFunc ins outs variadic ->
  (length args <= length ins)%nat ->
  reflectArgsFrom (typ fnv) 0 args = ([], Returns (zeroFilled ins args)) /\
  length (zeroFilled ins args) = length args /\
  ((length args < length ins)%nat ->
     exists msg, funcTry code (Some fnv) args = ([], Panics msg) /\
       forall c, data fnv = DFunc c ->
         msg = "reflect: " +:+ (if variadic then "CallSlice" else "Call")
               +:+ " with too few input arguments") /\
  (forall c, length args = length ins -> variadic = false ->
     data fnv = DFunc c ->
     Forall2 (fun a t => forall v, a = Some v -> AssignableTo (typ v) t = true)
       args ins ->
     funcTry code (Some fnv) args
     = invoke code c (zip_with assignTo (zeroFilled ins args) ins)
       ≫= wrapOutputs n).
Proof.
  intros Hacc Hu Hlen.
  pose proof (reflectArgsFrom_zeroFilled _ _ _ _ Hu args 0%nat Hlen) as Hargs.
  rewrite drop_0 in Hargs.
  pose proof (zeroFilled_length ins args Hlen) as Hzl.
  split; [exact Hargs|]. split; [exact Hzl|].
  rewrite (funcTry_accepted _ _ _ _ _ Hacc). unfold invocation.
  rewrite Hargs, M_bind_ret. unfold IsVariadic. rewrite Hu.
  cbn [orPanic]. rewrite M_bind_ret.
  split.
  - intros Hlt.
    assert (Hfew : (length (zeroFilled ins args) <? length ins)%nat = true)
      by (apply Nat.ltb_lt; lia).
    unfold CallSlice, Call, call. rewrite Hu.
    destruct (data fnv) eqn:Hd;
      try (eexists; split; [destruct variadic; reflexivity
                           | intros c; discriminate]).
    destruct variadic; cbn [negb]; rewrite Hfew;
      (eexists; split; [reflexivity | intros; reflexivity]).
  - intros c Heq -> Hd Hall.
    unfold Call, call. rewrite Hu, Hd. cbn [negb andb].
    assert (Hz : length (zeroFilled ins args) = length ins) by congruence.
    rewrite (take_ge (zeroFilled ins args)), (take_ge ins) by lia.
    rewrite Hz, Nat.ltb_irrefl.
    rewrite (assignable_args_zeroFilled _ _ Hall). reflexivity.
Qed.

Lemma funcTry_zero_fills_nil_arguments_only_witness :
  reflectArgsFrom intErrFunc 0 [None; int_ 7]
  = ([], Returns [MkValue TInt (DInt 0); MkValue TInt (DInt 7)]).
Proof.
  exact (proj1
    (funcTry_zero_fills_nil_arguments_only sampleCode
       (MkValue (TFunc [TInt; TInt] [errorType] false) (DFunc 0))
       1%nat errorType [TInt; TInt] [errorType] false [None; int_ 7]
       (conj eq_refl (conj eq_refl (conj (or_introl eq_refl)
          (conj eq_refl eq_refl))))
       eq_refl (le_n 2))).
Defined.

(** C3 as the claim has it fails: [succ_fn] takes one argument; called with
    none, it is not invoked on the zero value of [int], as it is when the
    argument is an explicit nil: the call panics. *)
Lemma funcTry_missing_argument_counterexample :
  accepted (MkValue intErrFunc (DFunc 0)) 2 errorType /\
  NumIn intErrFunc = Some 1%nat /\
  (length ([] : list any) < 1)%nat /\
  funcTry sampleCode succ_fn []
  = ([], Panics "reflect: Call with too few input arguments") /\
  funcTry sampleCode succ_fn [None]
  = ([{| inv_code := 0; inv_args := [MkValue TInt (DInt 0)] |}],
     Returns (Some {| Value := int_ 1; Error := None |}, None)).
Proof.
  repeat split; try reflexivity.
  - right; reflexivity.
  - simpl. lia.
Qed.

(** ** [funcIdx] *)

Example funcIdx_slice :
  funcIdx 2 sampleSlice = ([], Returns (int_ 30)) /\
  funcIdx 3 sampleSlice = ([], Panics "reflect: slice index out of range") /\
  funcIdx (-1) sampleSlice = ([], Panics "reflect: slice index out of range").
Proof. repeat split; reflexivity. Qed.

Example funcIdx_string :
  funcIdx 1 (str_ "go") = ([], Returns (Some (MkValue TUint8 (DInt 111)))).
Proof. reflexivity. Qed.

Example funcIdx_not_indexable :
  funcIdx 0 (int_ 7)
  = ([], Panics "reflect: call of reflect.Value.Index on int Value") /\
  safeCall (funcIdx 0 None)
  = (None, Errorf "reflect: call of reflect.Value.Index on zero Value").
Proof. split; reflexivity. Qed.

Lemma String_get_lookup (s : string) (n : nat) :
  String.get n s = String.list_ascii_of_string s !! n.
Proof.
  revert n. induction s as [|c s IH]; intros [|n]; simpl; auto.
Qed.

Lemma String_length_list (s : string) :
  length (String.list_ascii_of_string s) = String.length s.
Proof. induction s; simpl; auto. Qed.

Lemma uint_in_range (i : Z) : 0 <= i < 2 ^ 63 -> uint i = i.
Proof. intros H. unfold uint. apply Z.mod_small. lia. Qed.

Lemma uint_negative (i : Z) : - 2 ^ 63 <= i < 0 -> 2 ^ 63 <= uint i.
Proof.
  intros H. unfold uint.
  replace i with (i + 2 ^ 64 + (-1) * 2 ^ 64) by lia.
  rewrite Z.mod_add by lia. rewrite Z.mod_small; lia.
Qed.

Lemma out_of_range_uint (i len : Z) :
  is_int i -> 0 <= len < 2 ^ 63 -> ~ (0 <= i < len) ->
  (uint i >=? len) = true.
Proof.
  unfold is_int. intros Hi Hlen Hout. apply Z.geb_le.
  destruct (Z_lt_le_dec i 0) as [Hneg|Hpos].
  - pose proof (uint_negative i). lia.
  - rewrite uint_in_range; lia.
Qed.

Lemma in_range_uint (i len : Z) :
  0 <= len < 2 ^ 63 -> 0 <= i < len -> (uint i >=? len) = false.
Proof.
  intros Hlen Hin. rewrite uint_in_range by lia.
  destruct (Z.geb_spec i len); [lia | reflexivity].
Qed.

(** C9.  On an array, a slice or a string of length [n], [funcIdx] returns
    the element at position [i] when [0 <= i < n] and panics otherwise; it
    panics on nil and on a value of any other kind.  The panic is what the
    template engine's [safeCall] returns as the error of the call. *)
Theorem funcIdx_indexes_or_fails (i : Z) (arr : any) :
  is_int i ->
  (forall xs, sequence arr = Some xs -> Z.of_nat (length xs) < 2 ^ 63 ->
     (0 <= i < Z.of_nat (length xs) ->
        exists x, xs !! Z.to_nat i = Some x /\
                  funcIdx i arr = ([], Returns x) /\
                  safeCall (funcIdx i arr) = (x, None)) /\
     (~ (0 <= i < Z.of_nat (length xs)) ->
        exists msg, funcIdx i arr = ([], Panics msg) /\
                    safeCall (funcIdx i arr) = (None, Errorf msg))) /\
  (sequence arr = None ->
     exists msg, funcIdx i arr = ([], Panics msg) /\
                 safeCall (funcIdx i arr) = (None, Errorf msg)).
Proof.
  intros Hi. unfold funcIdx, sequence, ValueOf, Index.
  destruct arr as [v|]; [|split; [discriminate | eexists; split; reflexivity]].
  destruct (ValueKind v) eqn:Hk;
    try (split; [discriminate | intros _; eexists; split; reflexivity]).
  - (* string *)
    split; [|discriminate]. intros xs Hxs Hlen.
    inversion Hxs; subst xs; clear Hxs.
    rewrite length_fmap, String_length_list in *.
    split; intros Hin.
    + rewrite (in_range_uint _ _ (conj (Nat2Z.is_nonneg _) Hlen) Hin),
        String_get_lookup.
      destruct (lookup_lt_is_Some_2 (String.list_ascii_of_string (str v))
                  (Z.to_nat i)) as [c Hc];
        [rewrite String_length_list; lia|].
      exists (Some (byteValue c)). rewrite list_lookup_fmap, Hc.
      repeat split; reflexivity.
    + rewrite (out_of_range_uint _ _ Hi (conj (Nat2Z.is_nonneg _) Hlen) Hin).
      eexists; split; reflexivity.
  - (* array *)
    split; [|discriminate]. intros xs Hxs Hlen.
    inversion Hxs; subst xs; clear Hxs.
    rewrite length_fmap in *.
    split; intros Hin.
    + rewrite (in_range_uint _ _ (conj (Nat2Z.is_nonneg _) Hlen) Hin).
      destruct (lookup_lt_is_Some_2 (elems v) (Z.to_nat i)) as [x Hx]; [lia|].
      exists (Interface x). rewrite list_lookup_fmap, Hx.
      repeat split; reflexivity.
    + rewrite (out_of_range_uint _ _ Hi (conj (Nat2Z.is_nonneg _) Hlen) Hin).
      eexists; split; reflexivity.
  - (* slice *)
    split; [|discriminate]. intros xs Hxs Hlen.
    inversion Hxs; subst xs; clear Hxs.
    rewrite length_fmap in *.
    split; intros Hin.
    + rewrite (in_range_uint _ _ (conj (Nat2Z.is_nonneg _) Hlen) Hin).
      destruct (lookup_lt_is_Some_2 (elems v) (Z.to_nat i)) as [x Hx]; [lia|].
      exists (Interface x). rewrite list_lookup_fmap, Hx.
      repeat split; reflexivity.
    + rewrite (out_of_range_uint _ _ Hi (conj (Nat2Z.is_nonneg _) Hlen) Hin).
      eexists; split; reflexivity.
Qed.

Lemma funcIdx_indexes_or_fails_witness :
  exists x, [int_ 10; int_ 20; int_ 30] !! Z.to_nat 1 = Some x /\
            funcIdx 1 sampleSlice = ([], Returns x) /\
            safeCall (funcIdx 1 sampleSlice) = (x, None).
Proof.
  refine (proj1 (proj1 (funcIdx_indexes_or_fails 1 sampleSlice _)
                   [int_ 10; int_ 20; int_ 30] eq_refl _) _).
  - unfold is_int. lia.
  - simpl. lia.
  - simpl. lia.
Defined.

(** ** [funcHTTPError] *)

(** C8.  [funcHTTPError] never returns a nil error: the error is the
    [HandlerError] that carries the given status code, and wraps no other
    error. *)
Theorem funcHTTPError_carries_the_status
    (randString traceString : string) (statusCode : Z) :
  exists he,
    funcHTTPError randString traceString statusCode = (false, Some he) /\
    snd (funcHTTPError randString traceString statusCode) <> None /\
    typ he = HandlerError /\
    implements errorType (typ he) = true /\
    StatusCode he = Some statusCode /\
    (field he 0 ≫= Interface) = None.
Proof.
  eexists. repeat split; try reflexivity. discriminate.
Qed.

(** ** Trust markers *)

(** C10.  Each trust marker returns a value of its own type whose string is
    the argument, unchanged. *)
Theorem trust_markers_preserve_content (s : string) :
  (HTML_string (funcTrustHtml s) = s /\
   box (funcTrustHtml s) = MkValue (stringType "template.HTML") (DString s)) /\
  (HTMLAttr_string (funcTrustAttr s) = s /\
   box (funcTrustAttr s)
   = MkValue (stringType "template.HTMLAttr") (DString s)) /\
  (JS_string (funcTrustJS s) = s /\
   box (funcTrustJS s) = MkValue (stringType "template.JS") (DString s)) /\
  (JSStr_string (funcTrustJSStr s) = s /\
   box (funcTrustJSStr s)
   = MkValue (stringType "template.JSStr") (DString s)) /\
  (Srcset_string (funcTrustSrcSet s) = s /\
   box (funcTrustSrcSet s)
   = MkValue (stringType "template.Srcset") (DString s)).
Proof. repeat split. Qed.

(** ** [funcSanitizeHtml] *)

Example funcSanitizeHtml_ugc_elements :
  @funcSanitizeHtml elementLevel "ugc" "<script>alert(1)</script><b>ok</b>"
  = (mkHTML "<b>ok</b>", None).
Proof. reflexivity. Qed.

Lemma blueMondayPolicies_lookup `{Bluemonday} (name : string) :
  blueMondayPolicies !! name =
  if String.eqb name "strict" then Some StrictPolicy
  else if String.eqb name "ugc" then Some UGCPolicy
  else if String.eqb name "externalugc" then
    Some (AllowRelativeURLs false
            (AddTargetBlankToFullyQualifiedLinks true UGCPolicy))
  else None.
Proof.
  unfold blueMondayPolicies.
  destruct (String.eqb_spec name "strict") as [->|H1].
  { apply lookup_insert_eq. }
  rewrite lookup_insert_ne by congruence.
  destruct (String.eqb_spec name "ugc") as [->|H2].
  { apply lookup_insert_eq. }
  rewrite lookup_insert_ne by congruence.
  destruct (String.eqb_spec name "externalugc") as [->|H3].
  { apply lookup_singleton_eq. }
  apply lookup_singleton_ne. congruence.
Qed.

(** C5, as the code has it.  The registry holds three policies, under the
    names strict, ugc and externalugc.  Any other name gives the error
    that quotes the name; a registered name gives the markup sanitized by
    its policy, typed as [template.HTML].  The strict policy lets no
    element through: of [<script>alert(1)</script><b>ok</b>] it keeps the
    text [ok] alone. *)
Theorem funcSanitizeHtml_by_policy :
  (forall (B : Bluemonday),
     dom blueMondayPolicies = ({["strict"; "ugc"; "externalugc"]} : gset string) /\
     (forall name html,
        name <> "strict" -> name <> "ugc" -> name <> "externalugc" ->
        funcSanitizeHtml name html
        = (mkHTML "",
           Errorf ("failed to find policy name '" +:+ name +:+ "'"))) /\
     (forall html,
        funcSanitizeHtml "strict" html
        = (mkHTML (Sanitize StrictPolicy html), None) /\
        funcSanitizeHtml "ugc" html
        = (mkHTML (Sanitize UGCPolicy html), None) /\
        funcSanitizeHtml "externalugc" html
        = (mkHTML
             (Sanitize
                (AllowRelativeURLs false
                   (AddTargetBlankToFullyQualifiedLinks true UGCPolicy))
                html), None))) /\
  @funcSanitizeHtml elementLevel "strict"
    "<script>alert(1)</script><b>ok</b>"
  = (mkHTML "ok", None).
Proof.
  split; [|reflexivity].
  intros B. split; [|split].
  - unfold blueMondayPolicies. rewrite !dom_insert_L, dom_singleton_L.
    set_solver.
  - intros name html H1 H2 H3. unfold funcSanitizeHtml.
    rewrite blueMondayPolicies_lookup.
    apply String.eqb_neq in H1, H2, H3. rewrite H1, H2, H3. reflexivity.
  - intros html. unfold funcSanitizeHtml.
    rewrite !blueMondayPolicies_lookup. repeat split.
Qed.

Lemma funcSanitizeHtml_by_policy_witness :
  @funcSanitizeHtml elementLevel "bogus" "<b>ok</b>"
  = (mkHTML "", Errorf "failed to find policy name 'bogus'").
Proof.
  refine (proj1 (proj2 (proj1 funcSanitizeHtml_by_policy elementLevel))
            "bogus" "<b>ok</b>" _ _ _); discriminate.
Defined.

(** C5 as the claim has it fails: the strict policy does not keep the [b]
    tags. *)
Lemma funcSanitizeHtml_strict_counterexample :
  HTML_string
    (fst (@funcSanitizeHtml elementLevel "strict"
            "<script>alert(1)</script><b>ok</b>")) = "ok" /\
  String.index 0 "<b>"
    (HTML_string
       (fst (@funcSanitizeHtml elementLevel "strict"
               "<script>alert(1)</script><b>ok</b>"))) = None.
Proof. split; reflexivity. Qed.

(** ** [funcMarkdown] *)

(** C6 on the code.  What [funcMarkdown] returns is a Go [string], not a
    [template.HTML]: the engine escapes it like any other text, where it
    would write the same markup typed [template.HTML] as it is. *)
Theorem funcMarkdown_returns_a_plain_string
    (ToString : any -> string) (Convert : string -> string + GoValue)
    (input : any) (buf : string) :
  Convert (ToString input) = inl buf ->
  funcMarkdown ToString Convert input = (buf, None) /\
  Out funcMarkdownType 0 = Some TString /\
  Out funcSanitizeHtmlType 0 = Some (goType (A := HTML)) /\
  typ (box (fst (funcMarkdown ToString Convert input))) = TString /\
  typ (box (fst (funcMarkdown ToString Convert input)))
  <> goType (A := HTML) /\
  htmlEscaper (box (fst (funcMarkdown ToString Convert input)))
  = htmlReplacer buf /\
  htmlEscaper (box (mkHTML buf)) = buf.
Proof.
  intros E. unfold funcMarkdown. rewrite E. repeat split. discriminate.
Qed.

Lemma funcMarkdown_returns_a_plain_string_witness :
  htmlEscaper
    (box (fst (funcMarkdown sampleToString sampleConvert (str_ "hi"))))
  = "&lt;p&gt;hi&lt;/p&gt;".
Proof.
  exact (proj1 (proj2 (proj2 (proj2 (proj2 (proj2
    (funcMarkdown_returns_a_plain_string sampleToString sampleConvert
       (str_ "hi") "<p>hi</p>" eq_refl))))))).
Defined.

(** ** [funcHumanize] *)

Example Split_examples :
  Split ":" "time:15:04" = ["time"; "15"; "04"] /\
  Split ":" "size" = ["size"] /\
  Split ":" "" = [""].
Proof. repeat split; reflexivity. Qed.

Example ParseUint_examples :
  ParseUint "18446744073709551615" = inl maxUint64 /\
  ParseUint "18446744073709551616" = inr ErrRange /\
  ParseUint "" = inr ErrSyntax /\
  ParseUint "+1" = inr ErrSyntax /\
  ParseUint "12a" = inr ErrSyntax.
Proof. repeat split; reflexivity. Qed.

Example Bytes_examples :
  Bytes 82854982 = "83 MB" /\ Bytes 999 = "999 B" /\ Bytes 1000 = "1.0 kB".
Proof. repeat split; reflexivity. Qed.

Lemma Split_nonempty (sep : ascii) (s : string) :
  (1 <= length (Split sep s))%nat.
Proof.
  induction s as [|c s IH]; simpl; [lia|].
  destruct (Ascii.eqb c sep); simpl; [lia|].
  destruct (Split sep s); simpl; lia.
Qed.

Lemma substring_all (s : string) : String.substring 0 (String.length s) s = s.
Proof. induction s as [|c s IH]; simpl; [|rewrite IH]; reflexivity. Qed.

Lemma digit_range (c : ascii) (d : Z) : digit c = Some d -> 0 <= d <= 9.
Proof.
  unfold digit.
  destruct (_ && _) eqn:E; [|discriminate].
  intros [= <-]. apply andb_true_iff in E as [E1 E2].
  apply Z.leb_le in E1, E2. lia.
Qed.

Lemma decimalValue_ge (s : string) :
  forall acc m, 0 <= acc -> decimalValue acc s = Some m -> acc <= m.
Proof.
  induction s as [|c s IH]; simpl; intros acc m Hacc E.
  - inversion E. lia.
  - destruct (digit c) as [d|] eqn:Hd; [|discriminate]. simpl in E.
    pose proof (digit_range _ _ Hd).
    apply IH in E; lia.
Qed.

(** [parseDigits] reads the decimal digits, and fails exactly when there is
    another character or the number does not fit 64 bits. *)
Lemma parseDigits_decimalValue (s : string) :
  forall n m, 0 <= n <= maxUint64 ->
  parseDigits n s = inl m <-> decimalValue n s = Some m /\ m <= maxUint64.
Proof.
  assert (Hmax : maxUint64 = 18446744073709551615) by reflexivity.
  assert (Hcutoff : maxUint64 / 10 + 1 = 1844674407370955162) by reflexivity.
  induction s as [|c s IH]; simpl; intros n m Hn.
  - split.
    + intros E. inversion E; subst. split; [reflexivity | lia].
    + intros [E _]. inversion E; subst. reflexivity.
  - destruct (digit c) as [d|] eqn:Hd; simpl.
    2: { split; [discriminate | intros [E _]; discriminate]. }
    pose proof (digit_range _ _ Hd) as Hdr.
    destruct (Z.geb_spec n (maxUint64 / 10 + 1)) as [Hcut|Hcut].
    { split; [discriminate|]. intros [E Hm].
      apply decimalValue_ge in E; lia. }
    destruct (Z.gtb_spec (n * 10 + d) maxUint64) as [Hover|Hfit].
    { split; [discriminate|]. intros [E Hm].
      apply decimalValue_ge in E; lia. }
    apply IH. lia.
Qed.

Lemma ParseUint_decimalValue (data : string) (n : Z) :
  ParseUint data = inl n <->
  data <> "" /\ decimalValue 0 data = Some n /\ n <= maxUint64.
Proof.
  unfold ParseUint. destruct (String.eqb_spec data "") as [->|Hne].
  - split; [discriminate | intros [H _]; congruence].
  - rewrite parseDigits_decimalValue by (unfold maxUint64; lia). tauto.
Qed.

Lemma Split_time_layout (layout : string) :
  Split ":" ("time:" +:+ layout) = "time" :: Split ":" layout.
Proof. reflexivity. Qed.

Lemma sliceFrom_time_layout (layout : string) :
  sliceFrom 5 ("time:" +:+ layout) = layout.
Proof. unfold sliceFrom. simpl. rewrite Nat.sub_0_r. apply substring_all. Qed.

(** C7.  With [size] as the leading component of the format, [data] is
    read as an unsigned decimal integer of 64 bits and rendered by
    [humanize.Bytes]; with [time], [data] is parsed in the layout that
    follows the colon, or in RFC1123Z when there is none, and rendered by
    [humanize.Time]; a [data] that does not parse, and any other leading
    component, give an error.  [humanize.Bytes] renders 1048576 as 1.0 MB. *)
Theorem funcHumanize_formats
    (Quote : string -> string) (Time : Type)
    (time_Parse : string -> string -> Time + string)
    (humanize_Bytes : Z -> string) (humanize_Time : Time -> string) :
  let humanize :=
    funcHumanize Quote Time time_Parse humanize_Bytes humanize_Time in
  (forall formatType data,
     hd "" (Split ":" formatType) = "size" ->
     (forall n, data <> "" -> decimalValue 0 data = Some n ->
                n <= maxUint64 ->
                humanize formatType data = (humanize_Bytes n, None)) /\
     (forall e, ParseUint data = inr e ->
                humanize formatType data
                = ("", Errorf ("humanize: size cannot be parsed: "
                               +:+ NumError_Error Quote data e)))) /\
  (forall data,
     (forall t, time_Parse RFC1123Z data = inl t ->
                humanize "time" data = (humanize_Time t, None)) /\
     (forall msg, time_Parse RFC1123Z data = inr msg ->
                  humanize "time" data
                  = ("", Errorf ("humanize: time cannot be parsed: "
                                 +:+ msg)))) /\
  (forall layout data,
     (forall t, time_Parse layout data = inl t ->
                humanize ("time:" +:+ layout) data = (humanize_Time t, None)) /\
     (forall msg, time_Parse layout data = inr msg ->
                  humanize ("time:" +:+ layout) data
                  = ("", Errorf ("humanize: time cannot be parsed: "
                                 +:+ msg)))) /\
  (forall formatType data,
     hd "" (Split ":" formatType) <> "size" ->
     hd "" (Split ":" formatType) <> "time" ->
     humanize formatType data = ("", Errorf "no know function was given")) /\
  funcHumanize Quote Time time_Parse Bytes humanize_Time "size" "1048576"
  = ("1.0 MB", None).
Proof.
  intros humanize. subst humanize. repeat apply conj.
  - intros formatType data Hsize. unfold funcHumanize. rewrite Hsize.
    cbn [String.eqb Ascii.eqb Bool.eqb]. split.
    + intros n Hne Hd Hmax.
      rewrite (proj2 (ParseUint_decimalValue data n)) by auto. reflexivity.
    + intros e He. rewrite He. reflexivity.
  - intros data. unfold funcHumanize.
    split; intros x E; cbn; rewrite E; reflexivity.
  - intros layout data. unfold funcHumanize.
    rewrite Split_time_layout. cbn [hd].
    replace (1 <? length ("time" :: Split ":" layout))%nat with true
      by (symmetry; apply Nat.ltb_lt; pose proof (Split_nonempty ":" layout);
          simpl; lia).
    change (String.length "time" + 1)%nat with 5%nat.
    rewrite sliceFrom_time_layout.
    split; intros x E; cbn; rewrite E; reflexivity.
  - intros formatType data H1 H2. unfold funcHumanize.
    apply String.eqb_neq in H1, H2. rewrite H1, H2. reflexivity.
  - reflexivity.
Qed.

Lemma funcHumanize_formats_witness :
  funcHumanize (fun s => s) Z sampleParse Bytes sampleTime "bogus" "x"
  = ("", Errorf "no know function was given") /\
  funcHumanize (fun s => s) Z sampleParse Bytes sampleTime "time:days" "14"
  = ("2 weeks ago", None).
Proof.
  pose proof (funcHumanize_formats (fun s => s) Z sampleParse Bytes sampleTime)
    as (_ & _ & Htime & Hother & _).
  split.
  - apply Hother; discriminate.
  - apply (proj1 (Htime "days" "14") 14). reflexivity.
Defined.

(** ** Reload and dispatch *)

Lemma initial_consistent (ts : Reload.TemplateSet) :
  Reload.consistent (Reload.initial ts).
Proof.
  split; simpl.
  - rewrite lookup_singleton_eq. eauto.
  - intros id r H. rewrite lookup_empty in H. discriminate.
  - discriminate.
  - discriminate.
Qed.

(** The set under construction stays private to the supervisor. *)
Lemma step_consistent (s s' : Reload.System) :
  Reload.consistent s -> Reload.step s s' -> Reload.consistent s'.
Proof.
  intros [Hcur Hsnap Hbs Hbp] Hstep.
  destruct Hstep as [s id p Hnew|s id r Hr Hph|s id r tmpl Hr Hph
                    |s addr Hidle Hfresh|s addr p name body Hb
                    |s addr Hb|s addr Hb];
    split; simpl; try discriminate; try assumption.
  - (* start *)
    intros id' r'. rewrite lookup_insert. case_decide.
    + intros [= <-]. simpl. assumption.
    + apply Hsnap.
  - intros addr Hb. destruct (Hbp addr Hb) as [Hne Hreq]. split; [assumption|].
    intros id' r'. rewrite lookup_insert. case_decide.
    + intros [= <-]. simpl. congruence.
    + apply Hreq.
  - (* route *)
    intros id' r'. rewrite lookup_insert. case_decide.
    + intros [= <-]. simpl. eapply Hsnap, Hr.
    + apply Hsnap.
  - intros addr Hb. destruct (Hbp addr Hb) as [Hne Hreq]. split; [assumption|].
    intros id' r'. rewrite lookup_insert. case_decide.
    + intros [= <-]. simpl. eapply Hreq, Hr.
    + apply Hreq.
  - (* render *)
    intros id' r'. rewrite lookup_insert. case_decide.
    + intros [= <-]. simpl. eapply Hsnap, Hr.
    + apply Hsnap.
  - intros addr Hb. destruct (Hbp addr Hb) as [Hne Hreq]. split; [assumption|].
    intros id' r'. rewrite lookup_insert. case_decide.
    + intros [= <-]. simpl. eapply Hreq, Hr.
    + apply Hreq.
  - (* build begins *)
    rewrite lookup_insert_ne; [assumption|].
    intros ->. rewrite Hfresh in Hcur. destruct Hcur; discriminate.
  - intros id r Hr. specialize (Hsnap id r Hr).
    rewrite lookup_insert_ne; [assumption|].
    intros ->. rewrite Hfresh in Hsnap. destruct Hsnap; discriminate.
  - intros a [= <-]. rewrite lookup_insert_eq. eauto.
  - intros a [= <-]. split.
    + intros ->. rewrite Hfresh in Hcur. destruct Hcur; discriminate.
    + intros id r Hr E. specialize (Hsnap id r Hr). rewrite E, Hfresh in Hsnap.
      destruct Hsnap; discriminate.
  - (* a template is added *)
    destruct (Hbp addr Hb) as [Hne _]. rewrite lookup_insert_ne; auto.
  - intros id r Hr. destruct (Hbp addr Hb) as [_ Hreq].
    rewrite lookup_insert_ne; [eapply Hsnap, Hr|].
    intros E. eapply Hreq; eauto.
  - intros a [= <-]. rewrite lookup_insert_eq. eauto.
  - intros a [= <-]. apply Hbp, Hb.
  - (* publish *)
    apply Hbs, Hb.
Qed.

Lemma reachable_consistent (ts : Reload.TemplateSet) (s : Reload.System) :
  rtc Reload.step (Reload.initial ts) s -> Reload.consistent s.
Proof.
  intros H.
  apply (rtc_ind_r (R := Reload.step) (fun s => Reload.consistent s)
           (Reload.initial ts));
    [apply initial_consistent | | exact H].
  intros y z _ Hstep IH. eapply step_consistent; eauto.
Qed.

Lemma setAt_stored (s : Reload.System) (a : nat) (ts : Reload.TemplateSet) :
  Reload.store s !! a = Some ts -> Reload.setAt s a = ts.
Proof. unfold Reload.setAt. intros ->. reflexivity. Qed.

Lemma step_tracks (id a : nat) (ts : Reload.TemplateSet) (p : string)
    (s s' : Reload.System) :
  Reload.consistent s -> Reload.tracks id a ts p s -> Reload.step s s' ->
  Reload.tracks id a ts p s'.
Proof.
  intros Hc (r & Hr & Hsnap & Hpath & Hts & Hserved) Hstep.
  destruct Hstep as [s id' p' Hnew|s id' r' Hr' Hph|s id' r' tmpl Hr' Hph
                    |s addr Hidle Hfresh|s addr p' name body Hb
                    |s addr Hb|s addr Hb]; unfold Reload.tracks; simpl.
  - exists r. rewrite lookup_insert_ne by congruence. auto.
  - destruct (decide (id' = id)) as [->|Hne].
    + rewrite Hr in Hr'. inversion Hr'; subst r'.
      eexists. rewrite lookup_insert_eq. split; [reflexivity|]. simpl.
      repeat split; auto.
      unfold Reload.served_from. simpl.
      rewrite Hsnap, (setAt_stored _ _ _ Hts). reflexivity.
    + exists r. rewrite lookup_insert_ne by congruence. auto.
  - destruct (decide (id' = id)) as [->|Hne].
    + rewrite Hr in Hr'. inversion Hr'; subst r'.
      eexists. rewrite lookup_insert_eq. split; [reflexivity|]. simpl.
      repeat split; auto;
        unfold Reload.served_from in *; rewrite Hph in Hserved; simpl.
      * exact Hserved.
      * rewrite Hsnap, (setAt_stored _ _ _ Hts).
        unfold Reload.serve. rewrite <- Hserved. reflexivity.
    + exists r. rewrite lookup_insert_ne by congruence. auto.
  - exists r. rewrite lookup_insert_ne by congruence. auto.
  - exists r. destruct (Reload.building_private _ Hc addr Hb) as [_ Hreq].
    rewrite lookup_insert_ne; [auto|].
    intros ->. eapply Hreq; eauto.
  - exists r. auto.
  - exists r. auto.
Qed.

Lemma steps_track (id a : nat) (ts : Reload.TemplateSet) (p : string)
    (s s' : Reload.System) :
  rtc Reload.step s s' ->
  Reload.consistent s -> Reload.tracks id a ts p s ->
  Reload.consistent s' /\ Reload.tracks id a ts p s'.
Proof.
  induction 1 as [s|s s1 s2 Hstep _ IH]; intros Hc Ht; [auto|].
  apply IH; [eapply step_consistent | eapply step_tracks]; eauto.
Qed.

(** Only publication writes the shared reference, and it writes nothing
    else that a request reads. *)
Lemma current_changes_by_publication (s s' : Reload.System) :
  Reload.step s s' -> Reload.current s' <> Reload.current s ->
  Reload.supervisor s = Reload.Building (Reload.current s') /\
  Reload.store s' = Reload.store s /\
  Reload.requests s' = Reload.requests s.
Proof.
  intros Hstep Hne. destruct Hstep; simpl in *; try congruence. auto.
Qed.

(** C4, on the model of the supervisor and the dispatcher.  A request that
    starts in a reachable state, whatever steps of other requests and of
    the supervisor follow, holds the reference that was current when it
    started, finds there the set that was there at that time, and has
    routed and rendered from that set alone; no request holds the set
    under construction; the shared reference changes by publication only,
    in one step that leaves the sets and the requests as they are. *)
Theorem request_sees_one_generation
    (ts0 ts : Reload.TemplateSet) (s0 s1 s2 : Reload.System)
    (id : nat) (p : string) :
  rtc Reload.step (Reload.initial ts0) s0 ->
  Reload.requests s0 !! id = None ->
  Reload.store s0 !! Reload.current s0 = Some ts ->
  s1 = Reload.withRequest s0 id
         {| Reload.path := p; Reload.snapshot := Reload.current s0;
            Reload.phase := Reload.Started |} ->
  rtc Reload.step s1 s2 ->
  (exists r, Reload.requests s2 !! id = Some r /\
             Reload.snapshot r = Reload.current s0 /\
             Reload.store s2 !! Reload.snapshot r = Some ts /\
             match Reload.phase r with
             | Reload.Started => True
             | Reload.Routed tmpl => tmpl = Reload.resolve ts p
             | Reload.Done tmpl body =>
                 tmpl = Reload.resolve ts p /\ body = Reload.serve ts p
             end) /\
  (forall addr id' r',
     Reload.supervisor s2 = Reload.Building addr ->
     Reload.requests s2 !! id' = Some r' -> Reload.snapshot r' <> addr) /\
  (forall s s', Reload.step s s' ->
     Reload.current s' <> Reload.current s ->
     Reload.supervisor s = Reload.Building (Reload.current s') /\
     Reload.store s' = Reload.store s /\
     Reload.requests s' = Reload.requests s).
Proof.
  intros Hreach Hnew Hts -> Hsteps.
  pose proof (reachable_consistent _ _ Hreach) as Hc0.
  assert (Hc1 : Reload.consistent
                  (Reload.withRequest s0 id
                     {| Reload.path := p;
                        Reload.snapshot := Reload.current s0;
                        Reload.phase := Reload.Started |}))
    by (eapply step_consistent; [exact Hc0 | constructor; exact Hnew]).
  destruct (steps_track id (Reload.current s0) ts p _ _ Hsteps Hc1)
    as [Hc2 (r & Hr & Hsnap & Hpath & Hstore & Hserved)].
  { eexists. simpl. rewrite lookup_insert_eq.
    repeat split. exact Hts. }
  split; [|split].
  - exists r. rewrite Hsnap. repeat split; auto.
    unfold Reload.served_from in Hserved. rewrite Hpath in Hserved.
    exact Hserved.
  - intros addr id' r' Hb Hr'.
    exact (proj2 (Reload.building_private _ Hc2 addr Hb) id' r' Hr').
  - apply current_changes_by_publication.
Qed.

Lemma sample_run : rtc Reload.step Reload.run_started Reload.run_done.
Proof.
  eapply rtc_l.
  { exact (Reload.step_build_begin Reload.run_started 1 eq_refl eq_refl). }
  eapply rtc_l.
  { exact (Reload.step_build_add Reload.run_building 1 "/" "index"
             "<h1>new</h1>" eq_refl). }
  eapply rtc_l.
  { exact (Reload.step_publish Reload.run_built 1 eq_refl). }
  eapply rtc_l.
  { exact (Reload.step_route Reload.run_published 1
             {| Reload.path := "/"; Reload.snapshot := 0;
                Reload.phase := Reload.Started |} eq_refl eq_refl). }
  eapply rtc_l.
  { exact (Reload.step_render Reload.run_routed 1
             {| Reload.path := "/"; Reload.snapshot := 0;
                Reload.phase := Reload.Routed (Some "index") |}
             (Some "index") eq_refl eq_refl). }
  apply rtc_refl.
Qed.

Lemma request_sees_one_generation_witness :
  Reload.current Reload.run_done = 1%nat /\
  exists r, Reload.requests Reload.run_done !! 1%nat = Some r /\
            Reload.snapshot r = 0%nat /\
            Reload.store Reload.run_done !! Reload.snapshot r
            = Some Reload.sampleSet /\
            match Reload.phase r with
            | Reload.Started => True
            | Reload.Routed tmpl => tmpl = Reload.resolve Reload.sampleSet "/"
            | Reload.Done tmpl body =>
                tmpl = Reload.resolve Reload.sampleSet "/" /\
                body = Reload.serve Reload.sampleSet "/"
            end.
Proof.
  split; [reflexivity|].
  exact (proj1
    (request_sees_one_generation Reload.sampleSet Reload.sampleSet
       (Reload.initial Reload.sampleSet) Reload.run_started Reload.run_done
       1%nat "/" (rtc_refl _ _) eq_refl eq_refl eq_refl sample_run)).
Defined.

(** * Further properties *)

(** ** The call monad *)

Lemma M_bind_Returns_inv {A B} (m : M A) (k : A -> M B) tr (b : B) :
  m ≫= k = (tr, Returns b) ->
  exists tr1 a tr2,
    m = (tr1, Returns a) /\ k a = (tr2, Returns b) /\ tr = (tr1 ++ tr2)%list.
Proof.
  destruct m as [tr1 [a|msg]]; simpl; [|discriminate].
  destruct (k a) as [tr2 r] eqn:E. intros [= <- ->]. eauto 6.
Qed.

Lemma M_bind_trace {A B} (m : M A) (k : A -> M B) :
  trace (m ≫= k)
  = (trace m ++ match outcome m with
                | Returns a => trace (k a)
                | Panics _ => []
                end)%list.
Proof.
  destruct m as [tr [a|msg]]; simpl.
  - destruct (k a); reflexivity.
  - rewrite app_nil_r. reflexivity.
Qed.

Lemma M_bind_nil_returns {A B} (a : A) (f : A -> M B) :
  (([], Returns a) : M A) ≫= f = f a.
Proof. apply M_bind_ret. Qed.

(** ** [funcTry]: what it returns and what it calls *)

Lemma reflectArgsFrom_pure ft args :
  forall i,
    trace (reflectArgsFrom ft i args) = [] /\
    forall l, outcome (reflectArgsFrom ft i args) = Returns l ->
              length l = length args.
Proof.
  induction args as [|a args IH]; intros i; simpl.
  - split; [reflexivity|]. intros l [= <-]. reflexivity.
  - destruct (IH (S i)) as [Htr Hlen].
    destruct (reflectArgsFrom ft (S i) args) as [tr [l|msg]] eqn:E;
      simpl in Htr; subst tr.
    + specialize (Hlen l eq_refl).
      destruct a as [v|]; [|destruct (In ft i)]; simpl;
        (split; [reflexivity|]); intros l' H; inversion H; simpl; lia.
    + destruct a as [v|]; [|destruct (In ft i)]; simpl;
        (split; [reflexivity|]); intros l' H; inversion H.
Qed.

Lemma wrapOutputs_returns n out tr r e :
  wrapOutputs n out = (tr, Returns (r, e)) ->
  tr = [] /\ e = None /\ exists res, r = Some res.
Proof.
  unfold wrapOutputs, index. intros H.
  destruct (out !! (n - 1)%nat) as [oe|]; simpl in H; [|discriminate].
  destruct (Interface oe) as [err|];
    [destruct (implements errorType (typ err)); simpl in H; [|discriminate]|];
    (destruct (1 <? n)%nat;
     [destruct (out !! 0%nat); simpl in H; [|discriminate]|]);
    simpl in H; inversion H; eauto.
Qed.

Lemma wrapOutputs_trace n out : trace (wrapOutputs n out) = [].
Proof.
  unfold wrapOutputs, index.
  destruct (out !! (n - 1)%nat) as [oe|]; simpl; [|reflexivity].
  destruct (Interface oe) as [err|];
    [destruct (implements errorType (typ err)); simpl; [|reflexivity]|];
    (destruct (1 <? n)%nat; [destruct (out !! 0%nat)|]); reflexivity.
Qed.

Lemma NumOut_of_func v :
  ValueKind v = KFunc ->
  exists ins outs variadic, underlying (typ v) = TFunc ins outs variadic.
Proof.
  unfold ValueKind, kind_of.
  destruct (underlying (typ v)); try discriminate. eauto.
Qed.

(** Whatever the arguments, [funcTry] either rejects the value or goes on
    to the call. *)
Lemma funcTry_cases code fn args :
  (exists msg, Rejected fn msg /\
               funcTry code fn args = ([], Returns (None, Errorf msg))) \/
  (exists v n last, fn = Some v /\ accepted v n last /\
     funcTry code fn args = invocation code v args ≫= wrapOutputs n).
Proof.
  destruct fn as [v|]; [|left; eexists; split; [constructor | reflexivity]].
  destruct (Kind_eqb (ValueKind v) KFunc) eqn:Hk.
  2: { left. eexists. split; [apply rej_not_func, Kind_eqb_neq, Hk|].
       unfold funcTry. rewrite Hk. reflexivity. }
  assert (Hkind : ValueKind v = KFunc)
    by (destruct (ValueKind v); try discriminate; reflexivity).
  destruct (NumOut_of_func v Hkind) as (ins & outs & variadic & Hu).
  assert (Hn : NumOut (typ v) = Some (length outs))
    by (unfold NumOut; rewrite Hu; reflexivity).
  destruct (decide (length outs = 1 \/ length outs = 2)%nat) as [H12|H12].
  - destruct (lookup_lt_is_Some_2 outs (length outs - 1)) as [last Hlast];
      [lia|].
    assert (Hout : Out (typ v) (length outs - 1) = Some last)
      by (unfold Out; rewrite Hu; exact Hlast).
    destruct (AssignableTo last errorType) eqn:Hass.
    + right. exists v, (length outs), last. split; [reflexivity|].
      assert (Hacc : accepted v (length outs) last) by (repeat split; auto).
      split; [exact Hacc | apply (funcTry_accepted _ _ _ _ _ Hacc)].
    + left. eexists. split; [eapply rej_last; eauto|].
      unfold funcTry. rewrite Hk, Hn. cbn [negb orPanic]. rewrite M_bind_ret.
      replace (negb (length outs =? 1)%nat && negb (length outs =? 2)%nat)
        with false by (destruct H12 as [->| ->]; reflexivity).
      rewrite Hout. cbn [orPanic]. rewrite M_bind_ret, Hass. reflexivity.
  - left. eexists. split; [eapply rej_outputs; eauto; lia|].
    unfold funcTry. rewrite Hk, Hn. cbn [negb orPanic]. rewrite M_bind_ret.
    replace (negb (length outs =? 1)%nat && negb (length outs =? 2)%nat)
      with true; [reflexivity|].
    symmetry. apply andb_true_iff.
    split; apply negb_true_iff, Nat.eqb_neq; lia.
Qed.

(** X1.  When [funcTry] returns, exactly one of its two results is nil:
    either the value was rejected, the result is nil, the error is the one
    of the rejection and nothing was invoked; or the value was accepted,
    the error is nil and the result is not, whatever the function did. *)
Theorem funcTry_result_or_error code fn args tr r e :
  funcTry code fn args = (tr, Returns (r, e)) ->
  (r = None /\ tr = [] /\ exists msg, Rejected fn msg /\ e = Errorf msg) \/
  (e = None /\ (exists res, r = Some res) /\
   exists v n last, fn = Some v /\ accepted v n last).
Proof.
  intros H.
  destruct (funcTry_cases code fn args)
    as [(msg & Hrej & E)|(v & n & last & -> & Hacc & E)];
    rewrite E in H.
  - inversion H; subst. left. eauto.
  - apply M_bind_Returns_inv in H as (tr1 & out & tr2 & _ & Hw & _).
    apply wrapOutputs_returns in Hw as (_ & -> & Hres).
    right. eauto 8.
Qed.

Lemma funcTry_result_or_error_witness :
  (@None result = None /\ @nil Invocation = [] /\
   exists msg, Rejected (int_ 3) msg /\ Errorf "not a function" = Errorf msg) \/
  (Errorf "not a function" = None /\
   (exists res, @None result = Some res) /\
   exists v n last, int_ 3 = Some v /\ accepted v n last).
Proof.
  exact (funcTry_result_or_error sampleCode (int_ 3) [] []
           None (Errorf "not a function") eq_refl).
Defined.

Lemma assignTo_typ v dst : typ (assignTo v dst) = dst.
Proof.
  unfold assignTo. destruct (directlyAssignable dst (typ v)); [reflexivity|].
  destruct (ValueKind v); reflexivity.
Qed.

Lemma zip_with_assignTo_types (vs : list GoValue) (ts : list GoType) :
  length vs = length ts -> typ <$> zip_with assignTo vs ts = ts.
Proof.
  revert ts. induction vs as [|v vs IH]; intros [|t ts] Hlen; simpl in *;
    try discriminate; [reflexivity|].
  rewrite assignTo_typ, IH by lia. reflexivity.
Qed.

(** The reflective call, as [funcTry] makes it: [CallSlice] on a variadic
    function, [Call] on any other.  It invokes nothing or the code of the
    function value, once, on as many arguments as there are parameters,
    each at the type of its parameter. *)
Lemma call_invocations code v variadic ins inv :
  IsVariadic (typ v) = Some variadic ->
  inv ∈ trace (if variadic then CallSlice code v ins else Call code v ins) ->
  exists tin tout,
    underlying (typ v) = TFunc tin tout variadic /\
    data v = DFunc (inv_code inv) /\
    typ <$> inv_args inv = tin /\
    length ins = length tin /\
    trace (if variadic then CallSlice code v ins else Call code v ins)
    = [inv].
Proof.
  unfold IsVariadic, CallSlice, Call, call.
  destruct (underlying (typ v)) as [| | | | | | | | | |tin tout var|] eqn:Hu;
    try discriminate.
  intros [= ->].
  destruct (data v) as [| | | | | | |c|] eqn:Hd;
    try (destruct variadic; simpl; intros H; apply elem_of_nil in H;
         contradiction).
  destruct variadic; cbn [negb andb].
  - destruct (length ins <? length tin)%nat eqn:H1;
      [simpl; intros H; apply elem_of_nil in H; contradiction|].
    destruct (length tin <? length ins)%nat eqn:H2;
      [simpl; intros H; apply elem_of_nil in H; contradiction|].
    destruct (assignable_args ins tin);
      [|simpl; intros H; apply elem_of_nil in H; contradiction].
    apply Nat.ltb_ge in H1, H2. simpl. intros H.
    apply list_elem_of_singleton in H. subst inv. simpl.
    exists tin, tout. repeat split; auto.
    + apply zip_with_assignTo_types. lia.
    + lia.
  - destruct (length ins <? length tin)%nat eqn:H1;
      [simpl; intros H; apply elem_of_nil in H; contradiction|].
    destruct (length tin <? length ins)%nat eqn:H2;
      [simpl; intros H; apply elem_of_nil in H; contradiction|].
    apply Nat.ltb_ge in H1, H2.
    assert (Hlen : length ins = length tin) by lia.
    rewrite (take_ge ins), (take_ge tin) by lia.
    destruct (assignable_args ins tin);
      [|simpl; intros H; apply elem_of_nil in H; contradiction].
    simpl. intros H. apply list_elem_of_singleton in H. subst inv. simpl.
    exists tin, tout. repeat split; auto.
    apply zip_with_assignTo_types. lia.
Qed.

(** X2.  [funcTry] invokes nothing but the function it was given, at most
    once, and only when it was given as many arguments as the function has
    parameters; the function then receives each argument at the type of
    its parameter. *)
Theorem funcTry_invokes_once_well_typed code fn args inv :
  inv ∈ trace (funcTry code fn args) ->
  exists v ins outs variadic,
    fn = Some v /\
    underlying (typ v) = TFunc ins outs variadic /\
    data v = DFunc (inv_code inv) /\
    typ <$> inv_args inv = ins /\
    length args = length ins /\
    trace (funcTry code fn args) = [inv].
Proof.
  destruct (funcTry_cases code fn args)
    as [(msg & Hrej & E)|(v & n & last & -> & Hacc & E)];
    rewrite E.
  { simpl. intros H. apply elem_of_nil in H. contradiction. }
  unfold invocation.
  destruct (reflectArgsFrom_pure (typ v) args 0) as [Htr Hlen].
  destruct (reflectArgsFrom (typ v) 0 args) as [tr0 [rargs|msg]] eqn:Hra;
    simpl in Htr; subst tr0.
  2: { simpl. intros H. apply elem_of_nil in H. contradiction. }
  specialize (Hlen rargs eq_refl).
  rewrite M_bind_nil_returns.
  destruct (IsVariadic (typ v)) as [variadic|] eqn:Hv.
  2: { simpl. intros H. apply elem_of_nil in H. contradiction. }
  cbn [orPanic]. rewrite M_bind_ret.
  rewrite M_bind_trace.
  assert (Hrest : match outcome (if variadic then CallSlice code v rargs
                                 else Call code v rargs) with
                  | Returns a => trace (wrapOutputs n a)
                  | Panics _ => []
                  end = []).
  { destruct (outcome _); [apply wrapOutputs_trace | reflexivity]. }
  rewrite Hrest, app_nil_r. intros Hin.
  destruct (call_invocations code v variadic rargs inv Hv Hin)
    as (tin & tout & Hu & Hd & Hty & Hl & Htrace).
  exists v, tin, tout, variadic. repeat split; auto; congruence.
Qed.

Lemma funcTry_invokes_once_well_typed_witness :
  exists v ins outs variadic,
    succ_fn = Some v /\
    underlying (typ v) = TFunc ins outs variadic /\
    data v = DFunc 0 /\
    typ <$> [MkValue TInt (DInt 0)] = ins /\
    length [None : any] = length ins /\
    trace (funcTry sampleCode succ_fn [None])
    = [{| inv_code := 0; inv_args := [MkValue TInt (DInt 0)] |}].
Proof.
  refine (funcTry_invokes_once_well_typed sampleCode succ_fn [None]
            {| inv_code := 0; inv_args := [MkValue TInt (DInt 0)] |} _).
  apply list_elem_of_singleton. reflexivity.
Defined.

(** ** [funcTry]: the number of arguments, nil functions, panics *)

Lemma call_wrong_count code v variadic tin tout ins :
  underlying (typ v) = TFunc tin tout variadic ->
  length ins <> length tin ->
  exists msg,
    (if variadic then CallSlice code v ins else Call code v ins)
    = ([], Panics msg) /\
    forall c, data v = DFunc c -> (length tin < length ins)%nat ->
      msg = "reflect: " +:+ (if variadic then "CallSlice" else "Call")
            +:+ " with too many input arguments".
Proof.
  intros Hu Hne. unfold CallSlice, Call, call. rewrite Hu.
  destruct (data v) eqn:Hd;
    try (eexists; split; [destruct variadic; reflexivity
                         | intros c; discriminate]).
  destruct (Nat.lt_ge_cases (length ins) (length tin)) as [Hlt|Hge].
  - apply Nat.ltb_lt in Hlt as Hltb.
    destruct variadic; cbn [negb andb]; rewrite Hltb;
      (eexists; split; [reflexivity | intros; lia]).
  - assert (Hgt : (length tin < length ins)%nat) by lia.
    apply Nat.ltb_ge in Hge. apply Nat.ltb_lt in Hgt.
    destruct variadic; cbn [negb andb]; rewrite Hge, Hgt;
      (eexists; split; [reflexivity | intros; reflexivity]).
Qed.

(** X3.  [funcTry] adds no argument and drops none: with a number of
    arguments other than the number of parameters, also for a variadic
    function, whose last parameter counts for one, the call panics and the
    function is not invoked.  When there are too many, none of them nil,
    the panic is that of [reflect]. *)
Theorem funcTry_wrong_number_of_arguments
    code fnv n last ins outs variadic args :
  accepted fnv n last ->
  underlying (typ fnv) = TFunc ins outs variadic ->
  length args <> length ins ->
  exists msg,
    funcTry code (Some fnv) args = ([], Panics msg) /\
    forall c, data fnv = DFunc c -> (length ins < length args)%nat ->
      Forall is_Some args ->
      msg = "reflect: " +:+ (if variadic then "CallSlice" else "Call")
            +:+ " with too many input arguments".
Proof.
  intros Hacc Hu Hne.
  rewrite (funcTry_accepted _ _ _ _ _ Hacc). unfold invocation.
  destruct (reflectArgsFrom_pure (typ fnv) args 0) as [Htr Hlen].
  destruct (reflectArgsFrom (typ fnv) 0 args) as [tr0 [rargs|msg]] eqn:Hra;
    simpl in Htr; subst tr0.
  - specialize (Hlen rargs eq_refl). rewrite M_bind_nil_returns.
    unfold IsVariadic. rewrite Hu. cbn [orPanic]. rewrite M_bind_ret.
    destruct (call_wrong_count code fnv variadic ins outs rargs Hu)
      as (msg & E & Hmsg); [congruence|].
    exists msg. rewrite E. split; [reflexivity|].
    intros c Hd Hlt _. apply (Hmsg c Hd). lia.
  - exists msg. split; [reflexivity|].
    intros c Hd Hlt Hall. exfalso.
    assert (Hno : forall args i,
               Forall is_Some args ->
               exists l, reflectArgsFrom (typ fnv) i args = ([], Returns l)).
    { clear. induction args as [|a args IH]; intros i Hall.
      - eexists; reflexivity.
      - inversion Hall as [|? ? [v ->] Hall']; subst.
        destruct (IH (S i) Hall') as [l El]. simpl. rewrite El.
        eexists; reflexivity. }
    destruct (Hno args 0%nat Hall) as [l El]. congruence.
Qed.

Lemma funcTry_wrong_number_of_arguments_witness :
  exists msg,
    funcTry sampleCode' (Some (MkValue variadicFunc (DFunc 3)))
      [int_ 1; int_ 2] = ([], Panics msg) /\
    forall c, DFunc 3 = DFunc c -> (1 < 2)%nat ->
      Forall is_Some [int_ 1; int_ 2] ->
      msg = "reflect: CallSlice with too many input arguments".
Proof.
  refine (funcTry_wrong_number_of_arguments sampleCode'
            (MkValue variadicFunc (DFunc 3)) 2%nat errorType
            [TSlice TInt] [TInt; errorType] true [int_ 1; int_ 2]
            _ eq_refl _).
  - repeat split; try reflexivity. right; reflexivity.
  - simpl. lia.
Defined.

Example funcTry_variadic_slice :
  funcTry sampleCode' (Some (MkValue variadicFunc (DFunc 3)))
    [Some (ints [1; 2; 3])]
  = ([{| inv_code := 3; inv_args := [ints [1; 2; 3]] |}],
     Returns (Some {| Value := int_ 3; Error := None |}, None)).
Proof. reflexivity. Qed.

(** X4.  The test [fn == nil] finds the nil [any] only: a nil function of
    an accepted type passes every check of [funcTry], and the reflective
    call panics. *)
Theorem funcTry_nil_function_panics
    code fnv n last ins outs variadic args :
  accepted fnv n last ->
  underlying (typ fnv) = TFunc ins outs variadic ->
  data fnv = DNil ->
  (length args <= length ins)%nat ->
  funcTry code (Some fnv) args
  = ([], Panics "reflect.Value.Call: call of nil function").
Proof.
  intros Hacc Hu Hd Hlen.
  rewrite (funcTry_accepted _ _ _ _ _ Hacc). unfold invocation.
  rewrite (reflectArgsFrom_zeroFilled _ _ _ _ Hu args 0%nat Hlen).
  rewrite M_bind_ret. unfold IsVariadic. rewrite Hu.
  cbn [orPanic]. rewrite M_bind_ret.
  unfold CallSlice, Call, call. rewrite Hu, Hd.
  destruct variadic; reflexivity.
Qed.

Lemma funcTry_nil_function_panics_witness :
  funcTry sampleCode (Some (MkValue intErrFunc DNil)) [int_ 1]
  = ([], Panics "reflect.Value.Call: call of nil function").
Proof.
  refine (funcTry_nil_function_panics sampleCode (MkValue intErrFunc DNil)
            2%nat errorType [TInt] [TInt; errorType] false [int_ 1]
            _ eq_refl eq_refl (le_n 1)).
  repeat split; try reflexivity. right; reflexivity.
Defined.

(** With as many arguments as parameters, all assignable, the call is the
    invocation of the function on the arguments, zero values standing for
    the nils; the last parameter of a variadic function counts for one. *)
Lemma invocation_exact code fnv ins outs variadic c args :
  underlying (typ fnv) = TFunc ins outs variadic ->
  data fnv = DFunc c ->
  length args = length ins ->
  Forall2 (fun a t => forall v, a = Some v -> AssignableTo (typ v) t = true)
    args ins ->
  invocation code fnv args
  = invoke code c (zip_with assignTo (zeroFilled ins args) ins).
Proof.
  intros Hu Hd Hlen Hall. unfold invocation.
  rewrite (reflectArgsFrom_zeroFilled _ _ _ _ Hu args 0%nat) by (simpl; lia).
  rewrite drop_0, M_bind_ret. unfold IsVariadic. rewrite Hu.
  cbn [orPanic]. rewrite M_bind_ret.
  assert (Hz : length (zeroFilled ins args) = length ins)
    by (rewrite zeroFilled_length; lia).
  unfold CallSlice, Call, call. rewrite Hu, Hd.
  destruct variadic; cbn [negb andb].
  - rewrite Hz, Nat.ltb_irrefl.
    rewrite (assignable_args_zeroFilled _ _ Hall). reflexivity.
  - rewrite (take_ge (zeroFilled ins args)), (take_ge ins) by lia.
    rewrite Hz, Nat.ltb_irrefl.
    rewrite (assignable_args_zeroFilled _ _ Hall). reflexivity.
Qed.

(** X5.  [funcTry] recovers from nothing: when the function panics, so
    does [funcTry], with the same message, after the one invocation; there
    is no result to read. *)
Theorem funcTry_does_not_recover
    code fnv n last ins outs variadic c args msg :
  accepted fnv n last ->
  underlying (typ fnv) = TFunc ins outs variadic ->
  data fnv = DFunc c ->
  length args = length ins ->
  Forall2 (fun a t => forall v, a = Some v -> AssignableTo (typ v) t = true)
    args ins ->
  code c (zip_with assignTo (zeroFilled ins args) ins) = Panics msg ->
  funcTry code (Some fnv) args
  = ([{| inv_code := c;
         inv_args := zip_with assignTo (zeroFilled ins args) ins |}],
     Panics msg).
Proof.
  intros Hacc Hu Hd Hlen Hall Hpanic.
  rewrite (funcTry_accepted _ _ _ _ _ Hacc).
  rewrite (invocation_exact _ _ _ _ _ _ _ Hu Hd Hlen Hall).
  unfold invoke. rewrite Hpanic. reflexivity.
Qed.

Lemma funcTry_does_not_recover_witness :
  funcTry sampleCode' (Some (MkValue intErrFunc (DFunc 4))) [None]
  = ([{| inv_code := 4; inv_args := [MkValue TInt (DInt 0)] |}],
     Panics "boom").
Proof.
  refine (funcTry_does_not_recover sampleCode'
            (MkValue intErrFunc (DFunc 4)) 2%nat errorType
            [TInt] [TInt; errorType] false 4%nat [None] "boom"
            _ eq_refl eq_refl eq_refl _ eq_refl).
  - repeat split; try reflexivity. right; reflexivity.
  - constructor; [discriminate | constructor].
Defined.

(** ** [funcTry] on the functions of the library *)

Lemma funcHumanize_error Quote Time time_Parse humanize_Bytes humanize_Time
    formatType data :
  snd (funcHumanize Quote Time time_Parse humanize_Bytes humanize_Time
         formatType data) = None \/
  exists msg,
    snd (funcHumanize Quote Time time_Parse humanize_Bytes humanize_Time
           formatType data) = Errorf msg.
Proof.
  unfold funcHumanize.
  destruct (String.eqb _ "size"); [destruct (ParseUint data); simpl; eauto|].
  destruct (String.eqb _ "time"); [|simpl; eauto].
  destruct (time_Parse _ data); simpl; eauto.
Qed.

(** X6.  [try humanize formatType data] always returns a result: the
    string and the error of [funcHumanize] are its [Value] and its
    [Error], so that a format or a [data] that [funcHumanize] refuses shows
    as [OK] false, not as an error of the call. *)
Theorem try_humanize
    (Quote : string -> string) (Time : Type)
    (time_Parse : string -> string -> Time + string)
    (humanize_Bytes : Z -> string) (humanize_Time : Time -> string)
    (randString traceString : string) (formatType data : string) :
  let h := funcHumanize Quote Time time_Parse humanize_Bytes humanize_Time
             formatType data in
  let r := {| Value := Some (box (fst h)); Error := snd h |} in
  funcTry (libraryCode Quote Time time_Parse humanize_Bytes humanize_Time
             randString traceString)
    (Some humanize_fn) [str_ formatType; str_ data]
  = ([{| inv_code := 0;
         inv_args := [MkValue TString (DString formatType);
                      MkValue TString (DString data)] |}],
     Returns (Some r, None)) /\
  OK r = match snd h with None => true | Some _ => false end.
Proof.
  intros h r. split; [|reflexivity].
  assert (Hacc : accepted humanize_fn 2 errorType).
  { repeat split; try reflexivity. right; reflexivity. }
  rewrite (funcTry_accepted _ _ _ _ _ Hacc).
  rewrite (invocation_exact _ humanize_fn [TString; TString]
             [TString; errorType] false 0%nat) by
    (try reflexivity;
     repeat (constructor; [intros v [= <-]; reflexivity|]); constructor).
  unfold invoke, str_. cbn -[funcHumanize wrapOutputs]. subst r h.
  pose proof (funcHumanize_error Quote Time time_Parse humanize_Bytes
                humanize_Time formatType data) as Herr.
  destruct (funcHumanize Quote Time time_Parse humanize_Bytes humanize_Time
              formatType data) as [s err].
  simpl in Herr. destruct Herr as [->|[msg ->]]; reflexivity.
Qed.

(** X7.  [try httpError statusCode] does not stop the render: the
    [HandlerError] that [funcHTTPError] returns, with its status code, is
    the [Error] of a result whose [OK] is false, and the error of the call
    is nil. *)
Theorem try_httpError
    (Quote : string -> string) (Time : Type)
    (time_Parse : string -> string -> Time + string)
    (humanize_Bytes : Z -> string) (humanize_Time : Time -> string)
    (randString traceString : string) (statusCode : Z) :
  let he := caddyhttp_Error randString traceString statusCode None in
  let r := {| Value := Some (box false); Error := Some he |} in
  funcTry (libraryCode Quote Time time_Parse humanize_Bytes humanize_Time
             randString traceString)
    (Some httpError_fn) [int_ statusCode]
  = ([{| inv_code := 1; inv_args := [MkValue TInt (DInt statusCode)] |}],
     Returns (Some r, None)) /\
  OK r = false /\ StatusCode he = Some statusCode.
Proof. repeat split. Qed.

(** X8.  Of the functions of the library, [funcTry] accepts those declared
    with a last output of type [error] (and itself); it rejects [funcIdx]
    and the trust markers, whatever the arguments: an index out of range
    cannot be tried. *)
Theorem funcTry_on_the_library
    (code : nat -> list GoValue -> Outcome (list GoValue))
    (c : nat) (args : list any) :
  Forall (fun t =>
            accepted (MkValue t (DFunc c)) 2 errorType /\
            funcTry code (Some (MkValue t (DFunc c))) args
            = invocation code (MkValue t (DFunc c)) args ≫= wrapOutputs 2)
    [funcSanitizeHtmlType; funcMarkdownType; funcHTTPErrorType;
     funcHumanizeType; funcTryType] /\
  Forall (fun t =>
            funcTry code (Some (MkValue t (DFunc c))) args
            = ([], Returns
                     (None,
                      Errorf "cannot call func whose last arg is not error")))
    [funcIdxType; funcTrustHtmlType; funcTrustAttrType; funcTrustJSType;
     funcTrustJSStrType; funcTrustSrcSetType].
Proof.
  split.
  - repeat (apply List.Forall_cons;
            [assert (Hacc : forall t,
                       ValueKind (MkValue t (DFunc c)) = KFunc ->
                       NumOut t = Some 2%nat -> Out t 1 = Some errorType ->
                       accepted (MkValue t (DFunc c)) 2 errorType)
               by (intros t ? ? ?; repeat split; auto);
             split; [|apply (funcTry_accepted _ _ 2%nat errorType)];
             apply Hacc; reflexivity|]).
    apply List.Forall_nil.
  - repeat (apply List.Forall_cons; [reflexivity|]). apply List.Forall_nil.
Qed.

(** ** [funcHumanize]: the format and the numbers it reads *)

(** The format is its leading component, alone or followed by a colon and
    the rest. *)
Lemma Split_hd_cases (s : string) :
  s = hd "" (Split ":" s) \/
  exists rest, s = hd "" (Split ":" s) +:+ ":" +:+ rest.
Proof.
  induction s as [|c s IH]; [left; reflexivity|].
  pose proof (Split_nonempty ":" s) as Hne. simpl Split.
  destruct (Ascii.eqb_spec c ":"%char) as [->|Hc].
  - right. exists s. reflexivity.
  - destruct (Split ":" s) as [|p ps]; [simpl in Hne; lia|].
    cbn [hd] in *. destruct IH as [->|[rest ->]].
    + left. reflexivity.
    + right. exists rest. reflexivity.
Qed.

(** X9.  [funcHumanize] knows two formats, matched exactly: [size], with
    whatever follows [size:] ignored, and [time], alone or with the layout
    after [time:].  For these it never answers that the function is not
    known; for any other format, in other letter case or with a space for
    instance, it does. *)
Theorem funcHumanize_knows_two_formats
    (Quote : string -> string) (Time : Type)
    (time_Parse : string -> string -> Time + string)
    (humanize_Bytes : Z -> string) (humanize_Time : Time -> string)
    (formatType d : string) :
  let humanize :=
    funcHumanize Quote Time time_Parse humanize_Bytes humanize_Time in
  let unknown := ("", Errorf "no know function was given") in
  ((formatType = "size" \/ exists rest, formatType = "size:" +:+ rest) ->
     humanize formatType d = humanize "size" d /\
     humanize formatType d <> unknown) /\
  ((formatType = "time" \/ exists layout, formatType = "time:" +:+ layout) ->
     humanize formatType d <> unknown) /\
  (~ (formatType = "size" \/ (exists rest, formatType = "size:" +:+ rest) \/
      formatType = "time" \/ exists layout, formatType = "time:" +:+ layout) ->
     humanize formatType d = unknown).
Proof.
  cbv zeta. split; [|split].
  - intros Hsize.
    assert (E : funcHumanize Quote Time time_Parse humanize_Bytes
                  humanize_Time formatType d
                = funcHumanize Quote Time time_Parse humanize_Bytes
                    humanize_Time "size" d)
      by (destruct Hsize as [->|[rest ->]]; reflexivity).
    split; [exact E|]. rewrite E. unfold funcHumanize.
    change (hd "" (Split ":" "size")) with "size".
    cbn [String.eqb Ascii.eqb Bool.eqb].
    destruct (ParseUint d); simpl; discriminate.
  - intros Htime. unfold funcHumanize.
    destruct Htime as [->|[layout ->]].
    + change (hd "" (Split ":" "time")) with "time".
      cbn [String.eqb Ascii.eqb Bool.eqb].
      destruct (time_Parse _ d); simpl; discriminate.
    + rewrite Split_time_layout. cbn [hd String.eqb Ascii.eqb Bool.eqb].
      destruct (time_Parse _ d); simpl; discriminate.
  - intros Hother. unfold funcHumanize.
    destruct (String.eqb_spec (hd "" (Split ":" formatType)) "size")
      as [E|_].
    { exfalso. apply Hother.
      destruct (Split_hd_cases formatType) as [H|[rest H]]; rewrite E in H;
        [left; exact H | right; left; exists rest; exact H]. }
    destruct (String.eqb_spec (hd "" (Split ":" formatType)) "time")
      as [E|_]; [|reflexivity].
    exfalso. apply Hother.
    destruct (Split_hd_cases formatType) as [H|[rest H]]; rewrite E in H;
      [right; right; left; exact H
      | right; right; right; exists rest; exact H].
Qed.

Lemma funcHumanize_knows_two_formats_witness :
  funcHumanize (fun s => s) Z sampleParse Bytes sampleTime "Size" "10"
  = ("", Errorf "no know function was given").
Proof.
  refine (proj2 (proj2
    (funcHumanize_knows_two_formats (fun s => s) Z sampleParse Bytes
       sampleTime "Size" "10")) _).
  intros [H|[[rest H]|[H|[layout H]]]]; discriminate.
Defined.

Lemma digit_pretty_N_char (d : N) :
  (d < 10)%N -> digit (pretty_N_char d) = Some (Z.of_N d).
Proof.
  intros H.
  assert (d = 0 \/ d = 1 \/ d = 2 \/ d = 3 \/ d = 4 \/ d = 5 \/ d = 6 \/
          d = 7 \/ d = 8 \/ d = 9)%N as Hd by lia.
  repeat (destruct Hd as [->|Hd]; [reflexivity|]). subst d. reflexivity.
Qed.

(** Reading the digits that [pretty_N_go] writes in front of [s] amounts to
    starting the reading of [s] from the number written. *)
Lemma decimalValue_pretty_N_go (x : N) :
  forall s, decimalValue 0 (pretty_N_go x s) = decimalValue (Z.of_N x) s.
Proof.
  induction (N.lt_wf_0 x) as [x _ IH]. intros s.
  destruct (N.eq_dec x 0%N) as [->|Hx]; [reflexivity|].
  rewrite pretty_N_go_step by lia.
  rewrite IH by (apply N.div_lt; lia).
  cbn [decimalValue].
  rewrite digit_pretty_N_char by (apply N.mod_lt; lia).
  cbn [mbind option_bind]. f_equal.
  rewrite (N.div_mod x 10) at 3 by lia.
  rewrite N2Z.inj_add, N2Z.inj_mul. simpl Z.of_N. lia.
Qed.

Lemma pretty_N_go_nonempty (x : N) :
  forall s, s <> "" -> pretty_N_go x s <> "".
Proof.
  induction (N.lt_wf_0 x) as [x _ IH]. intros s Hs.
  destruct (N.eq_dec x 0%N) as [->|Hx]; [exact Hs|].
  rewrite pretty_N_go_step by lia.
  apply IH; [apply N.div_lt; lia | discriminate].
Qed.

(** The decimal numeral of a number that is not negative reads back as the
    number. *)
Lemma decimalValue_pretty (n : Z) :
  0 <= n -> pretty n <> "" /\ decimalValue 0 (pretty n) = Some n.
Proof.
  intros Hn. destruct n as [|p|p]; [split; [discriminate|reflexivity]| |lia].
  change (pretty (Z.pos p)) with (pretty (N.pos p)).
  unfold pretty, pretty_N.
  destruct (decide (N.pos p = 0%N)) as [E|_]; [discriminate|].
  split.
  - rewrite pretty_N_go_step by lia.
    apply pretty_N_go_nonempty. discriminate.
  - rewrite decimalValue_pretty_N_go. reflexivity.
Qed.

(** A string of digits fails to parse for its size only. *)
Lemma parseDigits_digits_only (s : string) :
  forall acc m, decimalValue acc s = Some m ->
                parseDigits acc s <> inr ErrSyntax.
Proof.
  induction s as [|c s IH]; simpl; intros acc m E; [discriminate|].
  destruct (digit c) as [d|]; [|discriminate]. simpl in E.
  destruct (acc >=? maxUint64 / 10 + 1); [discriminate|].
  destruct (acc * 10 + d >? maxUint64); [discriminate|].
  eapply IH, E.
Qed.

(** X10.  [funcHumanize] reads back, for the format [size], every number
    of 64 bits from its decimal numeral, the largest included; the numeral
    of a larger number is refused as out of range. *)
Theorem funcHumanize_size_reads_decimal
    (Quote : string -> string) (Time : Type)
    (time_Parse : string -> string -> Time + string)
    (humanize_Bytes : Z -> string) (humanize_Time : Time -> string)
    (n : Z) :
  0 <= n ->
  funcHumanize Quote Time time_Parse humanize_Bytes humanize_Time
    "size" (pretty n)
  = if n <=? maxUint64 then (humanize_Bytes n, None)
    else ("", Errorf ("humanize: size cannot be parsed: "
                      +:+ "strconv.ParseUint: parsing " +:+ Quote (pretty n)
                      +:+ ": value out of range")).
Proof.
  intros Hn. destruct (decimalValue_pretty n Hn) as [Hne Hval].
  unfold funcHumanize. cbn [Split hd String.eqb Ascii.eqb Bool.eqb].
  change (hd "" (Split ":" "size")) with "size".
  cbn [String.eqb Ascii.eqb Bool.eqb].
  destruct (Z.leb_spec n maxUint64) as [Hle|Hgt].
  - rewrite (proj2 (ParseUint_decimalValue (pretty n) n)) by auto.
    reflexivity.
  - destruct (ParseUint (pretty n)) as [m|e] eqn:E.
    + apply ParseUint_decimalValue in E as (_ & Hm & Hmax).
      rewrite Hval in Hm. inversion Hm. lia.
    + destruct e; [|reflexivity]. exfalso.
      unfold ParseUint in E.
      destruct (String.eqb_spec (pretty n) ""); [contradiction|].
      exact (parseDigits_digits_only _ _ _ Hval E).
Qed.

Lemma funcHumanize_size_reads_decimal_witness :
  funcHumanize (fun s => s) Z sampleParse Bytes sampleTime
    "size" (pretty maxUint64)
  = (Bytes maxUint64, None).
Proof.
  refine (funcHumanize_size_reads_decimal (fun s => s) Z sampleParse Bytes
            sampleTime maxUint64 _).
  unfold maxUint64. lia.
Defined.

Lemma Split_concat (sep : ascii) (s : string) :
  String.concat (String sep "") (Split sep s) = s.
Proof.
  induction s as [|c s IH]; [reflexivity|]. simpl.
  pose proof (Split_nonempty sep s) as Hne.
  destruct (Ascii.eqb_spec c sep) as [->|Hc].
  - destruct (Split sep s) as [|p ps]; [simpl in Hne; lia|].
    rewrite <- IH. destruct ps; reflexivity.
  - destruct (Split sep s) as [|p ps]; [simpl in Hne; lia|].
    rewrite <- IH. destruct ps; reflexivity.
Qed.

Lemma Split_parts_without_sep (sep : ascii) (s : string) :
  Forall (fun part => ~ List.In sep (String.list_ascii_of_string part))
    (Split sep s).
Proof.
  induction s as [|c s IH]; simpl.
  - constructor; [simpl; tauto | constructor].
  - destruct (Ascii.eqb_spec c sep) as [->|Hc].
    + constructor; [simpl; tauto | exact IH].
    + destruct (Split sep s) as [|p ps];
        [constructor; [simpl; intuition congruence | constructor]|].
      inversion IH; subst. constructor; [|assumption].
      simpl. intuition congruence.
Qed.

Lemma sliceFrom_S (n : nat) (c : ascii) (s : string) :
  sliceFrom (S n) (String c s) = sliceFrom n s.
Proof. reflexivity. Qed.

Lemma sliceFrom_0 (s : string) : sliceFrom 0 s = s.
Proof. unfold sliceFrom. rewrite Nat.sub_0_r. apply substring_all. Qed.

(** X11.  The format is cut at its first colon only.  Its leading
    component holds no colon; either there is no colon and the format is
    its leading component, or the format is the leading component, a colon
    and the slice that [funcHumanize] takes as the layout, which is the
    other parts joined by colons again: a layout may hold colons. *)
Theorem funcHumanize_layout_is_the_rest (formatType : string) :
  let parts := Split ":" formatType in
  let part0 := hd "" parts in
  let layout := sliceFrom (String.length part0 + 1) formatType in
  ~ List.In ":"%char (String.list_ascii_of_string part0) /\
  ((length parts = 1%nat /\ formatType = part0) \/
   ((1 < length parts)%nat /\
    formatType = part0 +:+ ":" +:+ layout /\
    layout = String.concat ":" (tl parts))).
Proof.
  cbv zeta. split.
  { pose proof (Split_parts_without_sep ":" formatType) as H.
    destruct (Split ":" formatType); [simpl; tauto|].
    inversion H; assumption. }
  induction formatType as [|c s IH]; [left; split; reflexivity|].
  pose proof (Split_nonempty ":" s) as Hne.
  pose proof (Split_concat ":" s) as Hcat.
  simpl Split. destruct (Ascii.eqb_spec c ":"%char) as [->|Hc].
  - right. cbn [hd tl String.length Nat.add length].
    rewrite sliceFrom_S, sliceFrom_0. repeat split; [lia|].
    symmetry. exact Hcat.
  - destruct (Split ":" s) as [|p ps]; [simpl in Hne; lia|].
    cbn [hd tl length String.length Nat.add] in *.
    rewrite sliceFrom_S.
    destruct IH as [[Hl ->]|(Hl & Hs & Hlay)].
    + left. split; [exact Hl | reflexivity].
    + right. repeat split; [lia | | exact Hlay].
      change (String c s
              = String c (p +:+ ":" +:+ sliceFrom (String.length p + 1) s)).
      f_equal. exact Hs.
Qed.

Example funcHumanize_layout_with_colons :
  funcHumanize (fun s => s) Z sampleParse Bytes sampleTime "time:15:04" "x"
  = ("", Errorf "humanize: time cannot be parsed: cannot parse with this layout")
  /\ sliceFrom (String.length "time" + 1) "time:15:04" = "15:04".
Proof. split; reflexivity. Qed.

Lemma digits_of_decimalValue (s : string) :
  forall acc n, decimalValue acc s = Some n ->
  Forall (fun c => is_Some (digit c)) (String.list_ascii_of_string s).
Proof.
  induction s as [|c s IH]; simpl; intros acc n E; [constructor|].
  destruct (digit c) as [d|] eqn:Hd; [|discriminate]. simpl in E.
  constructor; [rewrite Hd; eauto | eapply IH, E].
Qed.

(** X17.  For the format [size], an empty [data] and a [data] that holds
    any character other than a decimal digit (a sign, a space, a point, an
    underscore, a letter) are refused with an error. *)
Theorem funcHumanize_size_rejects_non_digits
    (Quote : string -> string) (Time : Type)
    (time_Parse : string -> string -> Time + string)
    (humanize_Bytes : Z -> string) (humanize_Time : Time -> string)
    (d : string) :
  d = "" \/ Exists (fun c => digit c = None) (String.list_ascii_of_string d) ->
  exists e,
    ParseUint d = inr e /\
    funcHumanize Quote Time time_Parse humanize_Bytes humanize_Time "size" d
    = ("", Errorf ("humanize: size cannot be parsed: "
                   +:+ NumError_Error Quote d e)).
Proof.
  intros Hbad. destruct (ParseUint d) as [n|e] eqn:E.
  - exfalso. apply ParseUint_decimalValue in E as (Hne & Hval & _).
    destruct Hbad as [->|Hex]; [congruence|].
    apply digits_of_decimalValue in Hval.
    apply Exists_exists in Hex as (c & Hin & Hc).
    rewrite Forall_forall in Hval. specialize (Hval c Hin).
    rewrite Hc in Hval. destruct Hval; discriminate.
  - exists e. split; [reflexivity|]. unfold funcHumanize.
    change (hd "" (Split ":" "size")) with "size".
    cbn [String.eqb Ascii.eqb Bool.eqb]. rewrite E. reflexivity.
Qed.

Lemma funcHumanize_size_rejects_non_digits_witness :
  exists e,
    ParseUint "-5" = inr e /\
    funcHumanize (fun s => s) Z sampleParse Bytes sampleTime "size" "-5"
    = ("", Errorf ("humanize: size cannot be parsed: "
                   +:+ NumError_Error (fun s => s) "-5" e)).
Proof.
  refine (funcHumanize_size_rejects_non_digits (fun s => s) Z sampleParse
            Bytes sampleTime "-5" _).
  right. apply Exists_cons_hd. reflexivity.
Defined.

(** ** What reaches the page *)

Lemma list_ascii_of_string_app (a b : string) :
  String.list_ascii_of_string (a +:+ b)
  = (String.list_ascii_of_string a ++ String.list_ascii_of_string b)%list.
Proof. induction a as [|c a IH]; simpl; [|rewrite IH]; reflexivity. Qed.

(** The escaped text holds no NUL, no quote of either kind, no [<] and no
    [>]. *)
Lemma htmlReplacer_no_markup (s : string) :
  Forall (fun c => ~ List.In (nat_of_ascii c) [0; 34; 39; 60; 62]%nat)
    (String.list_ascii_of_string (htmlReplacer s)).
Proof.
  induction s as [|c s IH]; simpl; [constructor|].
  rewrite list_ascii_of_string_app. apply Forall_app. split; [|exact IH].
  unfold htmlReplacement.
  repeat match goal with
         | |- context [Nat.eqb ?a ?b] =>
             destruct (Nat.eqb_spec a b);
             [repeat constructor; simpl; intuition discriminate|]
         end.
  repeat constructor. simpl. intuition congruence.
Qed.

(** X12.  Whatever goldmark renders, the text that the template engine
    writes for the output of [funcMarkdown] holds no [<], no [>] and no
    quote: none of the rendered elements reaches the page as markup. *)
Theorem funcMarkdown_output_is_escaped
    (ToString : any -> string) (Convert : string -> string + GoValue)
    (input : any) :
  Forall (fun c => ~ List.In (nat_of_ascii c) [0; 34; 39; 60; 62]%nat)
    (String.list_ascii_of_string
       (htmlEscaper (box (fst (funcMarkdown ToString Convert input))))).
Proof.
  unfold funcMarkdown.
  destruct (Convert (ToString input)) as [buf|err]; simpl.
  - apply htmlReplacer_no_markup.
  - constructor.
Qed.

(** X13.  In the text of an HTML node, the engine writes the output of
    [funcTrustHtml] as it is, and escapes the output of the four other
    trust markers, like a plain string, with the replacement table. *)
Theorem trust_markers_and_the_html_escaper (s : string) :
  htmlEscaper (box (funcTrustHtml s)) = s /\
  htmlEscaper (box (funcTrustAttr s)) = htmlReplacer s /\
  htmlEscaper (box (funcTrustJS s)) = htmlReplacer s /\
  htmlEscaper (box (funcTrustJSStr s)) = htmlReplacer s /\
  htmlEscaper (box (funcTrustSrcSet s)) = htmlReplacer s /\
  htmlEscaper (box s) = htmlReplacer s.
Proof. repeat split. Qed.

(** X14.  Under a registered policy, the engine writes the output of
    [funcSanitizeHtml] as the sanitizer left it; under any other name
    there is nothing to write. *)
Theorem funcSanitizeHtml_output_is_trusted `{Bluemonday}
    (policyName html : string) :
  htmlEscaper (box (fst (funcSanitizeHtml policyName html)))
  = match blueMondayPolicies !! policyName with
    | Some policy => Sanitize policy html
    | None => ""
    end.
Proof.
  unfold funcSanitizeHtml.
  destruct (blueMondayPolicies !! policyName); reflexivity.
Qed.

(** ** Values and errors *)

(** X15.  [funcHumanize], [funcSanitizeHtml] and [funcMarkdown] return a
    string or an error, never both: with a non-nil error the string is
    empty. *)
Theorem library_returns_value_or_error :
  (forall Quote Time time_Parse humanize_Bytes humanize_Time formatType data,
     let h := funcHumanize Quote Time time_Parse humanize_Bytes
                humanize_Time formatType data in
     snd h = None \/ (fst h = "" /\ exists msg, snd h = Errorf msg)) /\
  (forall (B : Bluemonday) policyName html,
     let r := funcSanitizeHtml policyName html in
     snd r = None \/ (fst r = mkHTML "" /\ exists msg, snd r = Errorf msg)) /\
  (forall ToString Convert input,
     let m := funcMarkdown ToString Convert input in
     snd m = None \/
     (fst m = "" /\ exists err, Convert (ToString input) = inr err /\
                                snd m = Some err)).
Proof.
  split; [|split].
  - intros Quote Time time_Parse humanize_Bytes humanize_Time formatType d h.
    subst h. unfold funcHumanize.
    destruct (String.eqb _ "size");
      [destruct (ParseUint d); simpl; eauto|].
    destruct (String.eqb _ "time"); [|simpl; eauto].
    destruct (time_Parse _ d); simpl; eauto.
  - intros. subst r. unfold funcSanitizeHtml.
    destruct (blueMondayPolicies !! policyName); simpl; eauto.
  - intros. subst m. unfold funcMarkdown.
    destruct (Convert (ToString input)) as [buf|err]; simpl; eauto.
Qed.

Lemma assignTo_same (v : GoValue) : assignTo v (typ v) = v.
Proof.
  unfold assignTo, directlyAssignable. rewrite GoType_eqb_refl.
  destruct v; reflexivity.
Qed.

Lemma zip_with_assignTo_same (vs : list GoValue) (ts : list GoType) :
  typ <$> vs = ts -> zip_with assignTo vs ts = vs.
Proof.
  intros <-. induction vs as [|v vs IH]; simpl; [reflexivity|].
  f_equal; [apply assignTo_same | exact IH].
Qed.

Lemma zeroFilled_types (ins : list GoType) (args : list any) :
  Forall2 (fun a t => forall v, a = Some v -> typ v = t) args ins ->
  typ <$> zeroFilled ins args = ins.
Proof.
  unfold zeroFilled. induction 1 as [|a t args ins Ha _ IH]; [reflexivity|].
  simpl. f_equal; [|exact IH].
  destruct a as [v|]; simpl; [apply Ha; reflexivity | reflexivity].
Qed.

(** X16.  On as many arguments as parameters, each nil or of the type of
    its parameter, [funcTry] is the one invocation of the function on these
    very arguments, zero values standing for the nils, followed by the
    wrapping of the outputs.  For a variadic function the last argument is
    the slice of the variadic values, passed as it is. *)
Theorem funcTry_is_the_direct_call
    code fnv n last ins outs variadic c args :
  accepted fnv n last ->
  underlying (typ fnv) = TFunc ins outs variadic ->
  data fnv = DFunc c ->
  Forall2 (fun a t => forall v, a = Some v -> typ v = t) args ins ->
  funcTry code (Some fnv) args
  = invoke code c (zeroFilled ins args) ≫= wrapOutputs n.
Proof.
  intros Hacc Hu Hd Hall.
  rewrite (funcTry_accepted _ _ _ _ _ Hacc).
  rewrite (invocation_exact _ _ _ _ _ _ _ Hu Hd).
  - rewrite zip_with_assignTo_same by (apply zeroFilled_types, Hall).
    reflexivity.
  - eapply Forall2_length, Hall.
  - eapply Forall2_impl; [exact Hall|]. intros a t Ht v ->.
    rewrite (Ht v eq_refl). apply AssignableTo_refl.
Qed.

Lemma funcTry_is_the_direct_call_witness :
  funcTry sampleCode' (Some (MkValue variadicFunc (DFunc 3)))
    [Some (ints [1; 2; 3])]
  = invoke sampleCode' 3 [ints [1; 2; 3]] ≫= wrapOutputs 2.
Proof.
  refine (funcTry_is_the_direct_call sampleCode'
            (MkValue variadicFunc (DFunc 3)) 2%nat errorType
            [TSlice TInt] [TInt; errorType] true 3%nat
            [Some (ints [1; 2; 3])] _ eq_refl eq_refl _).
  - repeat split; try reflexivity. right; reflexivity.
  - constructor; [intros v [= <-]; reflexivity | constructor].
Defined.

(** ** [funcIdx] on strings *)

(** X18.  Indexing a value of string kind, of whatever string type, gives
    the byte at the position as a number of type [uint8], not a string of
    one character. *)
Theorem funcIdx_string_gives_a_byte (i : Z) (v : GoValue) :
  ValueKind v = KString ->
  Z.of_nat (String.length (str v)) < 2 ^ 63 ->
  0 <= i < Z.of_nat (String.length (str v)) ->
  exists c,
    String.get (Z.to_nat i) (str v) = Some c /\
    funcIdx i (Some v)
    = ([], Returns (Some (MkValue TUint8 (DInt (Z.of_nat (nat_of_ascii c))))))
    /\ 0 <= Z.of_nat (nat_of_ascii c) < 256.
Proof.
  intros Hk Hlen Hin. unfold funcIdx, ValueOf, Index. rewrite Hk.
  rewrite (in_range_uint _ _ (conj (Nat2Z.is_nonneg _) Hlen) Hin).
  destruct (String.get (Z.to_nat i) (str v)) as [c|] eqn:Hc.
  - exists c. repeat split; [lia|].
    pose proof (nat_ascii_bounded c). lia.
  - exfalso. rewrite String_get_lookup in Hc.
    apply lookup_ge_None in Hc. rewrite String_length_list in Hc. lia.
Qed.

Lemma funcIdx_string_gives_a_byte_witness :
  exists c,
    String.get (Z.to_nat 1) "<b>" = Some c /\
    funcIdx 1 (Some (box (funcTrustHtml "<b>")))
    = ([], Returns (Some (MkValue TUint8 (DInt (Z.of_nat (nat_of_ascii c))))))
    /\ 0 <= Z.of_nat (nat_of_ascii c) < 256.
Proof.
  refine (funcIdx_string_gives_a_byte 1 (box (funcTrustHtml "<b>"))
            eq_refl _ _); simpl; lia.
Defined.
